(** * WorkerBlockDispatcher

    A shallow embedding of
    [packages/node-core/src/indexer/blockDispatcher/worker-block-dispatcher.ts]
    and the properties its specification states about it.

    The dispatcher is a class whose methods read and write three fields
    ([workers], [isShutdown] and the inherited [_latestBufferedHeight]) and
    talk to collaborators which live in other files: the worker threads, the
    [AutoQueue], the hooks of [BaseBlockDispatcher], the logger, the event
    emitter and the Node runtime.  The methods are embedded as functions of a
    state-and-exception monad.  Every call that leaves the file is recorded,
    in order, in the [history] of the state, and what such a call answers is
    read from an environment [Env] that may look at the whole history so far.
    This covers [initAutoQueue], the getter and the setter of the counter,
    [getNextWorkerIndex], [enqueueBlock] with its closure [processBlock],
    [enqueueBlocks], [onApplicationShutdown], [sampleWorkerStatus] and
    [init]; for [init] the function that makes a worker and the inherited
    [init] are computations handed in.

    Numbers are JavaScript numbers in the source.  Heights, thread ids,
    backlog sizes and the queue geometry are integer valued and are embedded
    as [Z]; the one fractional number, the result of [Math.random()], is a
    double of the unit interval, given by its significand and its binary
    scale, and its product with an array length is rounded the way the
    multiplication of doubles rounds it.

    What is thrown, and what a promise is rejected with, is any value:
    [undefined], [null], or a value with properties to read.  Of the
    promises given to a [Promise.all] the one that is rejected before the
    others gives the reason, and the environment says which one that is.

    An [async] method is embedded as one monadic computation: at an [await]
    the environment answers at once, and no other method of the dispatcher
    runs in between.  What happens between the submission of a processing
    task and its execution is modelled by running other operations on the
    state in between (see [Action] and [run]). *)

From Stdlib Require Import ZArith List String Bool Lia DecimalString.
From Stdlib Require Import Floats.SpecFloat.
Import ListNotations.
Local Open Scope string_scope.
Local Open Scope list_scope.
Local Open Scope Z_scope.

(** ** JavaScript values and runtime functions *)

(** A value with properties, as an exception is one.  [handler] and [stack]
    are the two properties the dispatcher reads when it reports a failure;
    both may be missing. *)
Record JsError : Type := mkJsError {
  name : string;
  message : string;
  handler : option string;
  stack : option string
}.

(** What [throw] is given, what [catch (e: any)] binds and what a promise is
    rejected with: any value.  [undefined] and [null] have no property, and to
    read one of them is a type error; every other value has the properties
    of an [object], missing ones included. *)
Inductive Thrown : Type :=
| undefined
| null
| object (e : JsError).

(** The error thrown by [assert(value, message)] of Node's [assert] module. *)
Definition AssertionError (msg : string) : Thrown :=
  object {| name := "AssertionError"; message := msg; handler := None; stack := None |}.

(** The error of reading a property of [undefined] or of [null]. *)
Definition TypeError (msg : string) : Thrown :=
  object {| name := "TypeError"; message := msg; handler := None; stack := None |}.

(** The error of making an array of a length that is none. *)
Definition RangeError (msg : string) : Thrown :=
  object {| name := "RangeError"; message := msg; handler := None; stack := None |}.

(** How a computation ends: it returns, it throws, or the process is gone. *)
Inductive Outcome (A : Type) : Type :=
| Ret (a : A)
| Throw (e : Thrown)
| Exited (code : Z).
Arguments Ret {A} a.
Arguments Throw {A} e.
Arguments Exited {A} code.

(** How a promise settles. *)
Inductive Settled (A : Type) : Type :=
| Fulfilled (a : A)
| Rejected (e : Thrown).
Arguments Fulfilled {A} a.
Arguments Rejected {A} e.

(** [`${n}`] for an integer valued number. *)
Definition toString (n : Z) : string := NilZero.string_of_int (Z.to_int n).

(** [`${x}`] for [x : number | undefined]. *)
Definition toStringOpt (x : option Z) : string :=
  match x with
  | Some n => toString n
  | None => "undefined"
  end.

(** [a ?? b] *)
Definition nullish {A : Type} (a : option A) (b : A) : A :=
  match a with
  | Some v => v
  | None => b
  end.
Infix "??" := nullish (at level 45, right associativity).

(** [a[i]] for an array [a] and a number [i]: [undefined] out of range. *)
Definition Array_get {A : Type} (a : list A) (i : Z) : option A :=
  if i <? 0 then None else nth_error a (Z.to_nat i).

(** [a.length] *)
Definition Array_length {A : Type} (a : list A) : Z := Z.of_nat (List.length a).

Module lodash.
(** [last(array)]: the last element, [undefined] for an empty array. *)
Fixpoint last {A : Type} (array : list A) : option A :=
  match array with
  | [] => None
  | [x] => Some x
  | _ :: rest => last rest
  end.
End lodash.

(** A double that is not negative, as the quotient [numerator / 2 ^ scale]
    of two integers. *)
Record Double : Type := mkDouble {
  numerator : Z;
  scale : Z
}.

(** The integer of 53 bits, times a power of two, that is next to [a], for
    [a] not negative; of two that are as near, the one whose 53 bits end in
    0.  This is how the product of two significands is rounded to the
    significand of a double. *)
Definition round53 (a : Z) : Z :=
  let excess := Z.log2 a - 52 in
  if excess <=? 0 then a
  else
    let unit := 2 ^ excess in
    let q := a / unit in
    let rest := a mod unit in
    if (unit <? 2 * rest) || ((unit =? 2 * rest) && Z.odd q)
    then (q + 1) * unit
    else q * unit.

Module Math.
(** [Math.min(...values)].  With no argument the result is [Infinity],
    which is [None] here; it is equal to no backlog size. *)
Fixpoint min (values : list Z) : option Z :=
  match values with
  | [] => None
  | v :: rest =>
      match min rest with
      | None => Some v
      | Some m => Some (Z.min v m)
      end
  end.

(** [Math.floor] of a double that is not negative. *)
Definition floor (x : Double) : Z := numerator x / 2 ^ scale x.
End Math.

(** A result of [Math.random()]: a double [r] with [0 <= r < 1].  These are
    the numbers [significand / 2 ^ binaryScale] with a significand of 53 bits
    and a scale from 53, where the doubles below 1 begin, to 1074, where the
    doubles end. *)
Record UnitInterval : Type := mkUnitInterval {
  significand : Z;
  binaryScale : Z;
  significand_range : 0 <= significand < 2 ^ 53;
  binaryScale_range : 53 <= binaryScale <= 1074
}.

(** [r * n] for a result [r] of [Math.random()] and the length [n] of an
    array: the double next to the product of the two. *)
Definition times (r : UnitInterval) (n : Z) : Double :=
  {| numerator := round53 (significand r * n); scale := binaryScale r |}.

(** The same product and the same [Math.floor] in the arithmetic of IEEE 754
    as the standard library specifies it, where the doubles are the floats of
    53 bits with exponents below 1024.  [times] is shown to agree with
    it. *)
Definition binary64 (m exponent : Z) : spec_float :=
  match m with
  | Zpos p => S754_finite false p exponent
  | _ => S754_zero false
  end.

Definition binary64_times (r : UnitInterval) (n : Z) : spec_float :=
  SFmul 53 1024 (binary64 (significand r) (- binaryScale r)) (binary64 n 0).

Definition binary64_floor (x : spec_float) : option Z :=
  match x with
  | S754_zero _ => Some 0
  | S754_finite false m exponent => Some (Z.shiftl (Zpos m) exponent)
  | _ => None
  end.

(** What the rounding of the standard library holds of an integer [a] once
    it has shifted it right by [j] bits: the bits that are left, whether the
    part shifted out is a half or more, and whether it is neither nothing
    nor a half. *)
Definition shifted (a j : Z) : shr_record :=
  {| shr_m := a / 2 ^ j;
     shr_r := 2 ^ j <=? 2 * (a mod 2 ^ j);
     shr_s := negb (a mod 2 ^ j =? 0) && negb (2 * (a mod 2 ^ j) =? 2 ^ j) |}.

(** ** The data of the dispatcher *)

(** A worker handle.  The four methods of the [Worker] type are calls into
    another thread; the handle only says which thread. *)
Definition Worker : Type := nat.

(** [WorkerStatusResponse], the two fields the dispatcher reads. *)
Record WorkerStatusResponse : Type := mkStatus {
  threadId : Z;
  toFetchBlocks : Z
}.

(** [IndexerEvent], the one event the dispatcher emits. *)
Inductive IndexerEvent : Type := BlockQueueSize.

(** The arguments [initAutoQueue] hands to [new AutoQueue(...)]. *)
Record AutoQueue : Type := new_AutoQueue {
  capacity : Z;
  concurrency : Z;
  taskTimeout : option Z;
  queueName : option string
}.

(** What the closure [processBlock] built by [enqueueBlock] captures.  The
    captured promise [pendingBlock] is the one returned by
    [fetchBlock(worker, height)]. *)
Record Task : Type := mkTask {
  height : Z;
  workerIdx : Z;
  worker : Worker;
  bufferedHeight : Z
}.

Section Dispatcher.

(** [Header] is declared in [../types] and [IBlock<B>] in [../../indexer];
    the dispatcher passes headers on and rejects blocks, and never looks
    inside either. *)
Variable Header : Type.
Variable IBlock : Type.

(** [ProcessBlockResponse], as [processBlock] destructures it. *)
Record ProcessBlockResponse : Type := mkResponse {
  dynamicDsCreated : bool;
  reindexBlockHeader : option Header
}.

(** An element of the array given to [enqueueBlocks]: [IBlock<B> | number]. *)
Inductive Item : Type :=
| Number (n : Z)
| Block (b : IBlock).

(** The calls that leave the file, as the history records them. *)
Inductive Event : Type :=
| getStatus_call (w : Worker)
| terminate_call (w : Worker)
| fetchBlock_call (w : Worker) (h : Z)
| processBlock_call (w : Worker) (h : Z)
| preProcessBlock_call (header : Header)
| postProcessBlock_call (header : Header) (response : ProcessBlockResponse)
| Math_random_call
| queue_abort_call
| queue_put_call (task : Task)
| eventEmitter_emit_call (event : IndexerEvent) (queueSize : Z)
| logger_info_call (msg : string)
| logger_debug_call (msg : string)
| logger_error_call (e : JsError) (msg : string)
| monitorWrite_call (msg : string)
| process_exit_call (code : Z).

(** A promise handed back by a collaborator: how it settles is found out when
    it is awaited, from the history at that moment. *)
Definition Promise (A : Type) : Type := list Event -> Settled A.

(** Everything the dispatcher imports or inherits. *)
Record Env : Type := mkEnv {
  (** [isTaskFlushedError] of [../../utils] *)
  isTaskFlushedError : Thrown -> bool;
  (** [isBlockUnavailableError] of [../worker/utils] *)
  isBlockUnavailableError : Thrown -> bool;
  (** the methods of a worker *)
  getStatus_answer : Worker -> Promise WorkerStatusResponse;
  terminate_answer : Worker -> Promise Z;
  processBlock_answer : Worker -> Z -> Promise ProcessBlockResponse;
  (** the abstract method [fetchBlock] *)
  fetchBlock_answer : Worker -> Z -> Promise Header;
  (** the inherited hooks and the inherited getter [queueSize] *)
  preProcessBlock_answer : Header -> Promise unit;
  postProcessBlock_answer : Header -> ProcessBlockResponse -> Promise unit;
  queueSize_answer : list Event -> Z;
  (** [Math.random] *)
  random_answer : list Event -> UnitInterval;
  (** the promise of a [Promise.all] that was rejected before the others:
      its place among the rejected ones, counted in the order of the array *)
  rejectsFirst : list Event -> nat
}.

(** The fields of the object. *)
Record State : Type := mkState {
  workers : list Worker;
  isShutdown : bool;
  _latestBufferedHeight : Z;
  history : list Event
}.

(** ** The monad *)

Definition M (A : Type) : Type := State -> Outcome A * State.

Definition ret {A : Type} (a : A) : M A := fun st => (Ret a, st).

Definition bind {A B : Type} (m : M A) (k : A -> M B) : M B :=
  fun st =>
    match m st with
    | (Ret a, st1) => k a st1
    | (Throw e, st1) => (Throw e, st1)
    | (Exited c, st1) => (Exited c, st1)
    end.

Definition throw {A : Type} (e : Thrown) : M A := fun st => (Throw e, st).

(** [try { body } catch (e) { handler }] *)
Definition tryCatch {A : Type} (body : M A) (handler : Thrown -> M A) : M A :=
  fun st =>
    match body st with
    | (Throw e, st1) => handler e st1
    | other => other
    end.

Definition gets {A : Type} (f : State -> A) : M A := fun st => (Ret (f st), st).

Definition modify (f : State -> State) : M unit := fun st => (Ret tt, f st).

(** Writing one field. *)
Definition with_isShutdown (b : bool) (st : State) : State :=
  {| workers := workers st;
     isShutdown := b;
     _latestBufferedHeight := _latestBufferedHeight st;
     history := history st |}.

Definition with_latestBufferedHeight (h : Z) (st : State) : State :=
  {| workers := workers st;
     isShutdown := isShutdown st;
     _latestBufferedHeight := h;
     history := history st |}.

Definition recordEvent (ev : Event) (st : State) : State :=
  {| workers := workers st;
     isShutdown := isShutdown st;
     _latestBufferedHeight := _latestBufferedHeight st;
     history := history st ++ [ev] |}.

(** A call that returns nothing the dispatcher uses. *)
Definition call (ev : Event) : M unit := modify (recordEvent ev).

(** A call that hands back a promise. *)
Definition callAsync {A : Type} (ev : Event) (p : Promise A) : M (Promise A) :=
  fun st => (Ret p, recordEvent ev st).

(** [await p] *)
Definition await {A : Type} (p : Promise A) : M A :=
  fun st =>
    match p (history st) with
    | Fulfilled a => (Ret a, st)
    | Rejected e => (Throw e, st)
    end.

Notation "x <- m ;; k" := (bind m (fun x => k))
  (at level 100, m at next level, right associativity).
Notation "m ;;; k" := (bind m (fun _ => k))
  (at level 100, right associativity).

(** [array.map(callback)] for a callback that acts on the object: the
    elements are visited in order, and an exception ends the visit. *)
Fixpoint Array_map {A B : Type} (callback : A -> M B) (array : list A) : M (list B) :=
  match array with
  | [] => ret []
  | x :: rest =>
      y <- callback x ;;
      ys <- Array_map callback rest ;;
      ret (y :: ys)
  end.

Fixpoint settleAll {A : Type} (results : list (Settled A)) : Settled (list A) :=
  match results with
  | [] => Fulfilled []
  | Fulfilled a :: rest =>
      match settleAll rest with
      | Fulfilled values => Fulfilled (a :: values)
      | Rejected e => Rejected e
      end
  | Rejected e :: _ => Rejected e
  end.

(** The reasons of the rejected ones, in the order of the array. *)
Definition rejections {A : Type} (results : list (Settled A)) : list Thrown :=
  flat_map (fun result => match result with
                          | Fulfilled _ => []
                          | Rejected e => [e]
                          end) results.

(** ** The collaborators *)

Variable env : Env.

(** [Promise.all(promises)]: fulfilled with all the values, in the order of
    the array, or rejected with the reason of the promise that was rejected
    before the others.  Which one that is, is for the environment to say. *)
Definition Promise_all {A : Type} (promises : list (Promise A)) : Promise (list A) :=
  fun hist =>
    let results := map (fun p => p hist) promises in
    match settleAll results with
    | Fulfilled values => Fulfilled values
    | Rejected earliest =>
        Rejected (nth (rejectsFirst env hist) (rejections results) earliest)
    end.

Definition worker_getStatus (w : Worker) : M (Promise WorkerStatusResponse) :=
  callAsync (getStatus_call w) (getStatus_answer env w).

Definition worker_terminate (w : Worker) : M (Promise Z) :=
  callAsync (terminate_call w) (terminate_answer env w).

Definition fetchBlock (w : Worker) (h : Z) : M (Promise Header) :=
  callAsync (fetchBlock_call w h) (fetchBlock_answer env w h).

Definition worker_processBlock (w : Worker) (h : Z) : M (Promise ProcessBlockResponse) :=
  callAsync (processBlock_call w h) (processBlock_answer env w h).

Definition preProcessBlock (header : Header) : M (Promise unit) :=
  callAsync (preProcessBlock_call header) (preProcessBlock_answer env header).

Definition postProcessBlock (header : Header) (response : ProcessBlockResponse)
  : M (Promise unit) :=
  callAsync (postProcessBlock_call header response)
            (postProcessBlock_answer env header response).

(** [Math.random()] *)
Definition Math_random : M UnitInterval :=
  call Math_random_call ;;;
  hist <- gets history ;;
  ret (random_answer env hist).

(** [process.exit(code)]: nothing runs after it. *)
Definition process_exit {A : Type} (code : Z) : M A :=
  fun st => (Exited code, recordEvent (process_exit_call code) st).

(** [this.queueSize] *)
Definition queueSize : M Z :=
  hist <- gets history ;;
  ret (queueSize_answer env hist).

(** ** The file *)

(** [function initAutoQueue(workers, batchSize, timeout, name)] *)
Definition initAutoQueue (workers : option Z) (batchSize : Z)
    (timeout : option Z) (name : option string) : Outcome AutoQueue :=
  match workers with
  | Some w =>
      if negb (w =? 0) && (w >? 0)
      then Ret (new_AutoQueue (w * batchSize * 2) 1 timeout name)
      else Throw (AssertionError "Number of workers must be greater than 0")
  | None => Throw (AssertionError "Number of workers must be greater than 0")
  end.

(** [get latestBufferedHeight()] *)
Definition latestBufferedHeight : M Z := gets _latestBufferedHeight.

(** Modelled from the spec: the setter of [BaseBlockDispatcher], which the
    setter below reaches through [super.latestBufferedHeight = height] and
    which is in [base-block-dispatcher.ts].  The spec has it update the
    stored value, the one the getter above reads. *)
Definition super_set_latestBufferedHeight (h : Z) : M unit :=
  modify (with_latestBufferedHeight h).

(** [set latestBufferedHeight(height)] *)
Definition set_latestBufferedHeight (h : Z) : M unit :=
  super_set_latestBufferedHeight h ;;;
  size <- queueSize ;;
  call (eventEmitter_emit_call BlockQueueSize size).

(** The constant [lowest] of [getNextWorkerIndex]:
    [statuses.filter((s) => s.toFetchBlocks === Math.min(...metric))]. *)
Definition lowestOf (statuses : list WorkerStatusResponse) : list WorkerStatusResponse :=
  let metric := map toFetchBlocks statuses in
  filter (fun s => match Math.min metric with
                   | Some m => toFetchBlocks s =? m
                   | None => false
                   end) statuses.

(** [private async getNextWorkerIndex()] *)
Definition getNextWorkerIndex : M Z :=
  ws <- gets workers ;;
  calls <- Array_map worker_getStatus ws ;;
  statuses <- await (Promise_all calls) ;;
  let lowest := lowestOf statuses in
  r <- Math_random ;;
  let randIndex := Math.floor (times r (Array_length lowest)) in
  match Array_get lowest randIndex with
  | Some s => ret (threadId s - 1)
  | None => throw (TypeError "Cannot read properties of undefined (reading 'threadId')")
  end.

(** The message of the [logger.error] call of [processBlock]. *)
Definition failedToIndex (h : Z) (e : JsError) : string :=
  ("failed to index block at height " ++ toString h ++ " " ++
   match handler e with
   | Some handlerName =>
       if String.eqb handlerName "" then ""
       else handlerName ++ "(" ++ (stack e ?? "") ++ ")"
   | None => ""
   end)%string.

(** The [try] block of the closure [processBlock]. *)
Definition processBlock_try (t : Task) : M unit :=
  header <- await (fetchBlock_answer env (worker t) (height t)) ;;
  current <- latestBufferedHeight ;;
  if bufferedHeight t >? current then
    call (logger_debug_call "Queue was reset for new DS, discarding fetched blocks")
  else
    pre <- preProcessBlock header ;;
    await pre ;;;
    call (monitorWrite_call
            ("Processing from worker #" ++ toString (workerIdx t))) ;;;
    processing <- worker_processBlock (worker t) (height t) ;;
    response <- await processing ;;
    post <- postProcessBlock header
              {| dynamicDsCreated := dynamicDsCreated response;
                 reindexBlockHeader := reindexBlockHeader response |} ;;
    await post.

(** The [catch (e: any)] block of the closure [processBlock].  The arguments
    of [logger.error] are worked out before the call, and the second reads
    [e.handler]. *)
Definition processBlock_catch (t : Task) (e : Thrown) : M unit :=
  if isTaskFlushedError env e then ret tt
  else if isBlockUnavailableError env e then ret tt
  else
    match e with
    | undefined =>
        throw (TypeError "Cannot read properties of undefined (reading 'handler')")
    | null =>
        throw (TypeError "Cannot read properties of null (reading 'handler')")
    | object err =>
        call (logger_error_call err (failedToIndex (height t) err)) ;;;
        process_exit 1
    end.

(** The closure [processBlock] that [enqueueBlock] puts on the queue.  The
    queue runs it later, on the state of that moment. *)
Definition processBlock (t : Task) : M unit :=
  tryCatch (processBlock_try t) (processBlock_catch t).

(** The handler of [this.queue.put(processBlock).catch(...)]: what becomes of
    a rejection [e] of the promise that [put] returned.  [put] is a method of
    [AutoQueue], of [../../utils]; the dispatcher does not await its promise,
    so that in [enqueueBlock] a [put] is the call and no more. *)
Definition put_catch (e : Thrown) : Outcome unit :=
  if isTaskFlushedError env e then Ret tt else Throw e.

(** [private enqueueBlock(height, workerIdx)] *)
Definition enqueueBlock (height workerIdx : Z) : M unit :=
  shutdown <- gets isShutdown ;;
  if shutdown then ret tt
  else
    ws <- gets workers ;;
    match Array_get ws workerIdx with
    | None => throw (AssertionError ("Worker " ++ toString workerIdx ++ " not found"))
    | Some worker =>
        bufferedHeight <- latestBufferedHeight ;;
        fetchBlock worker height ;;;
        call (queue_put_call (mkTask height workerIdx worker bufferedHeight))
    end.

(** [heights.every((h) => typeof h === 'number')], together with the numbers
    when it holds: the later [height as number] is then the number itself. *)
Fixpoint everyNumber (heights : list Item) : option (list Z) :=
  match heights with
  | [] => Some []
  | Number n :: rest =>
      match everyNumber rest with
      | Some ns => Some (n :: ns)
      | None => None
      end
  | Block _ :: _ => None
  end.

(** The first [if] of [enqueueBlocks]:
    [if (!!latestBufferHeight && !heights.length) heights = [latestBufferHeight]]. *)
Definition bypass (heights : list Z) (latestBufferHeight : option Z) : list Z :=
  match latestBufferHeight with
  | Some latest =>
      if negb (latest =? 0) && (Array_length heights =? 0)
      then [latest]
      else heights
  | None => heights
  end.

(** The message of the [logger.info] call of [enqueueBlocks]. *)
Definition enqueueing (heights : list Z) : string :=
  ("Enqueueing blocks " ++ toStringOpt (Array_get heights 0) ++ "..." ++
   toStringOpt (lodash.last heights) ++ ", total " ++
   toString (Array_length heights) ++ " blocks")%string.

(** The right-hand side of the last assignment of [enqueueBlocks]:
    [latestBufferHeight ?? last(heights) ?? this.latestBufferedHeight]. *)
Definition nextLatest (latestBufferHeight : option Z) (heights : list Z)
    (current : Z) : Z :=
  match latestBufferHeight with
  | Some latest => latest
  | None => lodash.last heights ?? current
  end.

(** [async enqueueBlocks(heights, latestBufferHeight)].  Of the two branches
    of [if (true)] only the first can run. *)
Definition enqueueBlocks (heights : list Item) (latestBufferHeight : option Z) : M unit :=
  match everyNumber heights with
  | None =>
      throw (AssertionError
               "Worker block dispatcher only supports enqueuing numbers, not blocks.")
  | Some heights =>
      let heights := bypass heights latestBufferHeight in
      call (logger_info_call (enqueueing heights)) ;;;
      workerIdx <- getNextWorkerIndex ;;
      Array_map (fun height => enqueueBlock height workerIdx) heights ;;;
      current <- latestBufferedHeight ;;
      set_latestBufferedHeight (nextLatest latestBufferHeight heights current)
  end.

(** [async onApplicationShutdown()].  [if (this.workers)] always holds: the
    field is an array. *)
Definition onApplicationShutdown : M unit :=
  modify (with_isShutdown true) ;;;
  call queue_abort_call ;;;
  ws <- gets workers ;;
  calls <- Array_map worker_terminate ws ;;
  await (Promise_all calls) ;;;
  ret tt.

(** ** The life of a dispatcher

    What can happen to the object, one operation after the other: its public
    methods, the queue running a task it was given, and the owner of the
    counter writing it (a reset to a lower value among others). *)
Inductive Action : Type :=
| EnqueueBlocks (heights : list Item) (latestBufferHeight : option Z)
| RunTask (t : Task)
| SetLatestBufferedHeight (h : Z)
| OnApplicationShutdown.

Definition step (st : State) (a : Action) : State :=
  match a with
  | EnqueueBlocks heights latestBufferHeight =>
      snd (enqueueBlocks heights latestBufferHeight st)
  | RunTask t => snd (processBlock t st)
  | SetLatestBufferedHeight h => snd (set_latestBufferedHeight h st)
  | OnApplicationShutdown => snd (onApplicationShutdown st)
  end.

(** The state after a sequence of operations.  How each one ended is left
    out: what holds after every sequence holds after those the process
    lives through. *)
Definition run (st : State) (actions : list Action) : State :=
  fold_left step actions st.

(** ** Reading a history *)

(** The state once the calls [evs] have been made, the fields untouched. *)
Definition addEvents (st : State) (evs : list Event) : State :=
  {| workers := workers st;
     isShutdown := isShutdown st;
     _latestBufferedHeight := _latestBufferedHeight st;
     history := history st ++ evs |}.

(** The calls by which the blocks of [heights] are assigned to the worker [w]
    of pool index [idx] while the counter stands at [fence]: for each height
    the fetch on the worker, then the task for the queue. *)
Definition assignments (w : Worker) (idx fence : Z) (heights : list Z) : list Event :=
  flat_map (fun h => [fetchBlock_call w h; queue_put_call (mkTask h idx w fence)])
           heights.

(** The pre-processing hook, the worker's [processBlock] and the
    post-processing hook. *)
Definition isProcessingCall (ev : Event) : bool :=
  match ev with
  | preProcessBlock_call _ | processBlock_call _ _ | postProcessBlock_call _ _ => true
  | _ => false
  end.

(** The workers asked for their status, in the order of the calls. *)
Definition statusCalls (evs : list Event) : list Worker :=
  flat_map (fun ev => match ev with getStatus_call w => [w] | _ => [] end) evs.

(** The workers told to terminate, in the order of the calls. *)
Definition terminateCalls (evs : list Event) : list Worker :=
  flat_map (fun ev => match ev with terminate_call w => [w] | _ => [] end) evs.

(** The fetches started, in the order of the calls. *)
Definition fetchCalls (evs : list Event) : list (Worker * Z) :=
  flat_map (fun ev => match ev with fetchBlock_call w h => [(w, h)] | _ => [] end) evs.

(** The tasks given to the queue, in the order of the calls. *)
Definition putCalls (evs : list Event) : list Task :=
  flat_map (fun ev => match ev with queue_put_call t => [t] | _ => [] end) evs.

(** How often the queue was aborted. *)
Definition abortCalls (evs : list Event) : nat :=
  List.length (filter (fun ev => match ev with queue_abort_call => true | _ => false end) evs).

(** The exit codes the process was asked to end with. *)
Definition exitCalls (evs : list Event) : list Z :=
  flat_map (fun ev => match ev with process_exit_call code => [code] | _ => [] end) evs.

(** The failures logged, each with its message. *)
Definition errorsLogged (evs : list Event) : list (JsError * string) :=
  flat_map (fun ev => match ev with logger_error_call e msg => [(e, msg)] | _ => [] end) evs.

(** How many numbers were drawn. *)
Definition randomCalls (evs : list Event) : nat :=
  List.length (filter (fun ev => match ev with Math_random_call => true | _ => false end) evs).

(** ** What no method but the shutdown touches *)

(** From [st] to [st'] the pool and the shutdown flag are the same, and the
    history has only grown. *)
Definition continues (st st' : State) : Prop :=
  workers st' = workers st /\
  isShutdown st' = isShutdown st /\
  exists evs, history st' = history st ++ evs.

(** A computation under which every state continues. *)
Definition steady {A : Type} (m : M A) : Prop :=
  forall st, continues st (snd (m st)).

(** ** The ways of a processing task *)

(** The exceptions the [catch] block lets pass: the two [return]s. *)
Definition swallowed (e : Thrown) : bool :=
  isTaskFlushedError env e || isBlockUnavailableError env e.

(** The message of [monitorWrite] in the [try] block. *)
Definition processingFrom (t : Task) : string :=
  ("Processing from worker #" ++ toString (workerIdx t))%string.

(** The runs of the [try] block of task [t] from state [st], one constructor
    for each place where it can end: the fetch fails; the fetched block is
    stale; the pre-processing hook fails; the worker fails; the
    post-processing hook settles. *)
Inductive TryRun (t : Task) (st : State) : Outcome unit * State -> Prop :=
| FetchFailed (e : Thrown) :
    fetchBlock_answer env (worker t) (height t) (history st) = Rejected e ->
    TryRun t st (Throw e, st)
| Discarded (header : Header) :
    fetchBlock_answer env (worker t) (height t) (history st) = Fulfilled header ->
    bufferedHeight t > _latestBufferedHeight st ->
    TryRun t st
      (Ret tt,
       addEvents st
         [logger_debug_call "Queue was reset for new DS, discarding fetched blocks"])
| PreProcessFailed (header : Header) (e : Thrown) :
    fetchBlock_answer env (worker t) (height t) (history st) = Fulfilled header ->
    bufferedHeight t <= _latestBufferedHeight st ->
    preProcessBlock_answer env header (history st ++ [preProcessBlock_call header])
      = Rejected e ->
    TryRun t st (Throw e, addEvents st [preProcessBlock_call header])
| WorkerFailed (header : Header) (e : Thrown) :
    fetchBlock_answer env (worker t) (height t) (history st) = Fulfilled header ->
    bufferedHeight t <= _latestBufferedHeight st ->
    preProcessBlock_answer env header (history st ++ [preProcessBlock_call header])
      = Fulfilled tt ->
    processBlock_answer env (worker t) (height t)
      (history st ++ [preProcessBlock_call header;
                      monitorWrite_call (processingFrom t);
                      processBlock_call (worker t) (height t)]) = Rejected e ->
    TryRun t st
      (Throw e,
       addEvents st [preProcessBlock_call header;
                     monitorWrite_call (processingFrom t);
                     processBlock_call (worker t) (height t)])
| PostProcessSettled (header : Header) (response : ProcessBlockResponse)
    (settled : Settled unit) :
    fetchBlock_answer env (worker t) (height t) (history st) = Fulfilled header ->
    bufferedHeight t <= _latestBufferedHeight st ->
    preProcessBlock_answer env header (history st ++ [preProcessBlock_call header])
      = Fulfilled tt ->
    processBlock_answer env (worker t) (height t)
      (history st ++ [preProcessBlock_call header;
                      monitorWrite_call (processingFrom t);
                      processBlock_call (worker t) (height t)]) = Fulfilled response ->
    postProcessBlock_answer env header
      (mkResponse (dynamicDsCreated response) (reindexBlockHeader response))
      (history st ++ [preProcessBlock_call header;
                      monitorWrite_call (processingFrom t);
                      processBlock_call (worker t) (height t);
                      postProcessBlock_call header
                        (mkResponse (dynamicDsCreated response)
                                    (reindexBlockHeader response))]) = settled ->
    TryRun t st
      (match settled with
       | Fulfilled _ => Ret tt
       | Rejected e => Throw e
       end,
       addEvents st [preProcessBlock_call header;
                     monitorWrite_call (processingFrom t);
                     processBlock_call (worker t) (height t);
                     postProcessBlock_call header
                       (mkResponse (dynamicDsCreated response)
                                   (reindexBlockHeader response))]).

(** The failures a task can meet.  [Fails t st e evs]: run from [st], the
    task makes the calls [evs] and then finds the promise it awaits rejected
    with [e].  That promise is the one of the fetch, of the pre-processing
    hook, of the worker or of the post-processing hook; what was awaited
    before it was fulfilled, and past the fetch the block is not stale. *)
Inductive Fails (t : Task) (st : State) : Thrown -> list Event -> Prop :=
| FetchFails (e : Thrown) :
    fetchBlock_answer env (worker t) (height t) (history st) = Rejected e ->
    Fails t st e []
| PreProcessFails (header : Header) (e : Thrown) :
    fetchBlock_answer env (worker t) (height t) (history st) = Fulfilled header ->
    bufferedHeight t <= _latestBufferedHeight st ->
    preProcessBlock_answer env header (history st ++ [preProcessBlock_call header])
      = Rejected e ->
    Fails t st e [preProcessBlock_call header]
| WorkerFails (header : Header) (e : Thrown) :
    fetchBlock_answer env (worker t) (height t) (history st) = Fulfilled header ->
    bufferedHeight t <= _latestBufferedHeight st ->
    preProcessBlock_answer env header (history st ++ [preProcessBlock_call header])
      = Fulfilled tt ->
    processBlock_answer env (worker t) (height t)
      (history st ++ [preProcessBlock_call header;
                      monitorWrite_call (processingFrom t);
                      processBlock_call (worker t) (height t)]) = Rejected e ->
    Fails t st e [preProcessBlock_call header;
                  monitorWrite_call (processingFrom t);
                  processBlock_call (worker t) (height t)]
| PostProcessFails (header : Header) (response : ProcessBlockResponse) (e : Thrown) :
    fetchBlock_answer env (worker t) (height t) (history st) = Fulfilled header ->
    bufferedHeight t <= _latestBufferedHeight st ->
    preProcessBlock_answer env header (history st ++ [preProcessBlock_call header])
      = Fulfilled tt ->
    processBlock_answer env (worker t) (height t)
      (history st ++ [preProcessBlock_call header;
                      monitorWrite_call (processingFrom t);
                      processBlock_call (worker t) (height t)]) = Fulfilled response ->
    postProcessBlock_answer env header
      (mkResponse (dynamicDsCreated response) (reindexBlockHeader response))
      (history st ++ [preProcessBlock_call header;
                      monitorWrite_call (processingFrom t);
                      processBlock_call (worker t) (height t);
                      postProcessBlock_call header
                        (mkResponse (dynamicDsCreated response)
                                    (reindexBlockHeader response))]) = Rejected e ->
    Fails t st e [preProcessBlock_call header;
                  monitorWrite_call (processingFrom t);
                  processBlock_call (worker t) (height t);
                  postProcessBlock_call header
                    (mkResponse (dynamicDsCreated response)
                                (reindexBlockHeader response))].

(** ** The rest of the class *)

(** [for (const x of array) { body }] *)
Fixpoint for_of {A : Type} (array : list A) (body : A -> M unit) : M unit :=
  match array with
  | [] => ret tt
  | x :: rest => body x ;;; for_of rest body
  end.

(** [JSON.stringify(status)].  A status has more fields than the two the
    dispatcher reads, so that its text is left to the runtime. *)
Variable JSON_stringify : WorkerStatusResponse -> string.

(** [@Interval(15000) async sampleWorkerStatus()] *)
Definition sampleWorkerStatus : M unit :=
  ws <- gets workers ;;
  for_of ws (fun worker =>
    polling <- worker_getStatus worker ;;
    status <- await polling ;;
    call (logger_info_call (JSON_stringify status))).

(** The type of [onDynamicDsCreated], the function the constructor is given
    to make a worker, and [init] of [BaseBlockDispatcher], which is in
    [base-block-dispatcher.ts]: whatever they do, they do it to the object
    and the history. *)
Variable Callback : Type.
Variable createIndexerWorker : M (Promise Worker).
Variable super_init : Callback -> M unit.

Definition with_workers (ws : list Worker) (st : State) : State :=
  {| workers := ws;
     isShutdown := isShutdown st;
     _latestBufferedHeight := _latestBufferedHeight st;
     history := history st |}.

(** [new Array(n).fill(0)] for an integer [n]: [n] zeros, and a range error
    unless [0 <= n < 2 ^ 32]. *)
Definition new_Array_fill_0 (n : Z) : M (list Z) :=
  if (n <? 0) || (4294967295 <? n)
  then throw (RangeError "Invalid array length")
  else ret (repeat 0 (Z.to_nat n)).

(** [async init(onDynamicDsCreated)].  [numWorkers] is the private field of
    that name, which the constructor sets to [nodeConfig.workers] and nothing
    writes afterwards. *)
Definition init (numWorkers : Z) (onDynamicDsCreated : Callback) : M unit :=
  zeros <- new_Array_fill_0 numWorkers ;;
  created <- Array_map (fun _ => createIndexerWorker) zeros ;;
  ws <- await (Promise_all created) ;;
  modify (with_workers ws) ;;;
  super_init onDynamicDsCreated.

(** The lines of [logger.info], in the order of the calls. *)
Definition infoLogged (evs : list Event) : list string :=
  flat_map (fun ev => match ev with logger_info_call msg => [msg] | _ => [] end) evs.

(** The hooks and the worker's [processBlock] among the calls. *)
Definition processingCalls (evs : list Event) : list Event :=
  filter isProcessingCall evs.

End Dispatcher.

Arguments mkResponse {Header} dynamicDsCreated reindexBlockHeader.
Arguments dynamicDsCreated {Header} p.
Arguments reindexBlockHeader {Header} p.
Arguments Number {IBlock} n.
Arguments Block {IBlock} b.
Arguments getStatus_call {Header} w.
Arguments terminate_call {Header} w.
Arguments fetchBlock_call {Header} w h.
Arguments processBlock_call {Header} w h.
Arguments preProcessBlock_call {Header} header.
Arguments postProcessBlock_call {Header} header response.
Arguments Math_random_call {Header}.
Arguments queue_abort_call {Header}.
Arguments queue_put_call {Header} task.
Arguments eventEmitter_emit_call {Header} event queueSize.
Arguments logger_info_call {Header} msg.
Arguments logger_debug_call {Header} msg.
Arguments logger_error_call {Header} e msg.
Arguments monitorWrite_call {Header} msg.
Arguments process_exit_call {Header} code.
Arguments mkEnv {Header}.
Arguments isTaskFlushedError {Header} e.
Arguments isBlockUnavailableError {Header} e.
Arguments getStatus_answer {Header} e.
Arguments terminate_answer {Header} e.
Arguments processBlock_answer {Header} e.
Arguments fetchBlock_answer {Header} e.
Arguments preProcessBlock_answer {Header} e.
Arguments postProcessBlock_answer {Header} e.
Arguments queueSize_answer {Header} e.
Arguments random_answer {Header} e.
Arguments rejectsFirst {Header} e.
Arguments mkState {Header} workers isShutdown _latestBufferedHeight history.
Arguments workers {Header} s.
Arguments isShutdown {Header} s.
Arguments _latestBufferedHeight {Header} s.
Arguments history {Header} s.
Arguments ret {Header A} a.
Arguments bind {Header A B} m k.
Arguments throw {Header A} e.
Arguments tryCatch {Header A} body handler.
Arguments gets {Header A} f.
Arguments modify {Header} f.
Arguments recordEvent {Header} ev st.
Arguments with_isShutdown {Header} b st.
Arguments with_latestBufferedHeight {Header} h st.
Arguments call {Header} ev.
Arguments callAsync {Header A} ev p.
Arguments await {Header A} p.
Arguments Array_map {Header A B} callback array.
Arguments settleAll {A} results.
Arguments rejections {A} results.
Arguments Promise_all {Header} env {A} promises.
Arguments worker_getStatus {Header} env w.
Arguments worker_terminate {Header} env w.
Arguments fetchBlock {Header} env w h.
Arguments worker_processBlock {Header} env w h.
Arguments preProcessBlock {Header} env header.
Arguments postProcessBlock {Header} env header response.
Arguments Math_random {Header} env.
Arguments process_exit {Header A} code.
Arguments queueSize {Header} env.
Arguments latestBufferedHeight {Header}.
Arguments super_set_latestBufferedHeight {Header} h.
Arguments set_latestBufferedHeight {Header} env h.
Arguments getNextWorkerIndex {Header} env.
Arguments processBlock_try {Header} env t.
Arguments processBlock_catch {Header} env t e.
Arguments processBlock {Header} env t.
Arguments put_catch {Header} env e.
Arguments enqueueBlock {Header} env height workerIdx.
Arguments everyNumber {IBlock} heights.
Arguments enqueueBlocks {Header IBlock} env heights latestBufferHeight.
Arguments onApplicationShutdown {Header} env.
Arguments EnqueueBlocks {IBlock} heights latestBufferHeight.
Arguments RunTask {IBlock} t.
Arguments SetLatestBufferedHeight {IBlock} h.
Arguments OnApplicationShutdown {IBlock}.
Arguments step {Header IBlock} env st a.
Arguments run {Header IBlock} env st actions.
Arguments addEvents {Header} st evs.
Arguments assignments {Header} w idx fence heights.
Arguments isProcessingCall {Header} ev.
Arguments statusCalls {Header} evs.
Arguments terminateCalls {Header} evs.
Arguments fetchCalls {Header} evs.
Arguments putCalls {Header} evs.
Arguments abortCalls {Header} evs.
Arguments exitCalls {Header} evs.
Arguments errorsLogged {Header} evs.
Arguments randomCalls {Header} evs.
Arguments swallowed {Header} env e.
Arguments continues {Header} st st'.
Arguments steady {Header A} m.
Arguments TryRun {Header} env t st _.
Arguments Fails {Header} env t st _ _.
Arguments for_of {Header A} array body.
Arguments sampleWorkerStatus {Header} env JSON_stringify.
Arguments with_workers {Header} ws st.
Arguments new_Array_fill_0 {Header} n.
Arguments init {Header} env {Callback} createIndexerWorker super_init numWorkers onDynamicDsCreated.
Arguments infoLogged {Header} evs.
Arguments processingCalls {Header} evs.

(** ** A dispatcher to compute with

    Headers are stood for by their heights.  The worker of handle [w] answers
    [getStatus] with the entry [w] of [statuses], and every fetch, hook and
    [terminate] goes well; what [processBlock] of a worker answers, and what
    [Math.random] draws, is chosen by the example. *)

Definition drawHalf : UnitInterval :=
  mkUnitInterval (2 ^ 52) 53 ltac:(split; [discriminate | reflexivity])
                 ltac:(split; discriminate).

Definition drawZero : UnitInterval :=
  mkUnitInterval 0 53 ltac:(split; [discriminate | reflexivity])
                 ltac:(split; discriminate).

(** The double 0.5714285714285715, which is 2573485501354569 / 2 ^ 52. *)
Definition drawFourSevenths : UnitInterval :=
  mkUnitInterval 5146971002709138 53 ltac:(split; [discriminate | reflexivity])
                 ltac:(split; discriminate).

(** The greatest double below 1. *)
Definition drawLast : UnitInterval :=
  mkUnitInterval (2 ^ 53 - 1) 53 ltac:(split; [discriminate | reflexivity])
                 ltac:(split; discriminate).

Definition taskFlushed : Thrown :=
  object {| name := "Error"; message := "task flushed"; handler := None; stack := None |}.

Definition blockUnavailable : Thrown :=
  object {| name := "Error"; message := "block unavailable"; handler := None; stack := None |}.

Definition handlerError : JsError :=
  {| name := "Error"; message := "boom"; handler := Some "handleEvent"; stack := Some "at mapping" |}.

Definition handlerFailure : Thrown := object handlerError.

(** The text of the property [message], for the values that have one. *)
Definition messageIs (text : string) (e : Thrown) : bool :=
  match e with
  | object err => String.eqb (message err) text
  | _ => false
  end.

Definition doneProcessing : Settled (ProcessBlockResponse Z) :=
  Fulfilled {| dynamicDsCreated := false; reindexBlockHeader := None |}.

Definition exampleEnv (statuses : list WorkerStatusResponse)
    (processing : Settled (ProcessBlockResponse Z)) (draw : UnitInterval) : Env Z :=
  {| isTaskFlushedError := messageIs "task flushed";
     isBlockUnavailableError := messageIs "block unavailable";
     getStatus_answer := fun w _ => Fulfilled (nth w statuses (mkStatus 0 0));
     terminate_answer := fun _ _ => Fulfilled 0;
     processBlock_answer := fun _ _ _ => processing;
     fetchBlock_answer := fun _ h _ => Fulfilled h;
     preProcessBlock_answer := fun _ _ => Fulfilled tt;
     postProcessBlock_answer := fun _ _ _ => Fulfilled tt;
     queueSize_answer := fun _ => 0;
     random_answer := fun _ => draw;
     rejectsFirst := fun _ => 0%nat |}.

(** Four workers, created in the order of their thread ids, with backlogs
    3, 1, 1 and 4. *)
Definition fourStatuses : list WorkerStatusResponse :=
  [mkStatus 1 3; mkStatus 2 1; mkStatus 3 1; mkStatus 4 4].

Definition fourWorkers : State Z :=
  {| workers := [0%nat; 1%nat; 2%nat; 3%nat];
     isShutdown := false;
     _latestBufferedHeight := 100;
     history := [] |}.

(** Two workers whose thread ids are not in the order of the pool: the one of
    pool index 0 runs in thread 2 and has a backlog of 5, the one of pool
    index 1 runs in thread 1 and is idle. *)
Definition swappedStatuses : list WorkerStatusResponse :=
  [mkStatus 2 5; mkStatus 1 0].

Definition twoWorkers : State Z :=
  {| workers := [0%nat; 1%nat];
     isShutdown := false;
     _latestBufferedHeight := 100;
     history := [] |}.

(** The four workers when all goes well, when a handler fails in the worker,
    and when the worker finds its block gone; the two workers. *)
Definition quietEnv : Env Z := exampleEnv fourStatuses doneProcessing drawZero.

Definition failingEnv : Env Z :=
  exampleEnv fourStatuses (Rejected handlerFailure) drawZero.

Definition unavailableEnv : Env Z :=
  exampleEnv fourStatuses (Rejected blockUnavailable) drawZero.

(** The four workers when the worker rejects with no reason to read. *)
Definition undefinedEnv : Env Z :=
  exampleEnv fourStatuses (Rejected undefined) drawZero.

Definition swappedEnv : Env Z := exampleEnv swappedStatuses doneProcessing drawZero.

(** The four workers again, with a draw of one half. *)
Definition halfEnv : Env Z := exampleEnv fourStatuses doneProcessing drawHalf.

(** The task of block 120, assigned to the worker of pool index 1 while the
    counter stood at 100. *)
Definition block120 : Task := mkTask 120 1 1%nat 100.

(** Three batches: two heights, none, and a height with a block. *)
Definition twoHeights : list (Item unit) := [Number 5; Number 6].

Definition noHeights : list (Item unit) := [].

Definition heightAndBlock : list (Item unit) := [Number 1; Block tt].

(** The four workers after the shutdown. *)
Definition afterShutdown : State Z := snd (onApplicationShutdown quietEnv fourWorkers).

(** The four workers after block 120 was enqueued and the counter was then
    set back to 50. *)
Definition afterReset : State Z :=
  run (IBlock := unit) quietEnv fourWorkers
    [EnqueueBlocks [Number 120] None; SetLatestBufferedHeight 50].

(** The four workers after nothing was enqueued with a latest height of 0. *)
Definition afterZero : State Z := snd (enqueueBlocks quietEnv noHeights (Some 0) fourWorkers).

(** The four workers when the third does not answer for its status. *)
Definition silentThirdEnv : Env Z :=
  {| isTaskFlushedError := isTaskFlushedError quietEnv;
     isBlockUnavailableError := isBlockUnavailableError quietEnv;
     getStatus_answer := fun w hist =>
       if Nat.eqb w 2 then Rejected handlerFailure else getStatus_answer quietEnv w hist;
     terminate_answer := terminate_answer quietEnv;
     processBlock_answer := processBlock_answer quietEnv;
     fetchBlock_answer := fetchBlock_answer quietEnv;
     preProcessBlock_answer := preProcessBlock_answer quietEnv;
     postProcessBlock_answer := postProcessBlock_answer quietEnv;
     queueSize_answer := queueSize_answer quietEnv;
     random_answer := random_answer quietEnv;
     rejectsFirst := rejectsFirst quietEnv |}.

(** A text for a status: its thread id and its backlog. *)
Definition exampleStringify (s : WorkerStatusResponse) : string :=
  (toString (threadId s) ++ ":" ++ toString (toFetchBlocks s))%string.

(** A dispatcher before [init]: no worker yet. *)
Definition noWorkers : State Z :=
  {| workers := [];
     isShutdown := false;
     _latestBufferedHeight := 0;
     history := [] |}.

(** A function that makes a worker: it leaves a line in the log and hands
    back the promise of a handle, the number of calls made so far. *)
Definition exampleCreate : M Z (Promise Z Worker) :=
  fun st =>
    (Ret (fun _ => Fulfilled (List.length (history st))),
     recordEvent (logger_info_call "worker created") st).

(** One that makes a worker the first time only. *)
Definition exampleCreateOnce : M Z (Promise Z Worker) :=
  fun st =>
    (Ret (fun _ => match history st with
                   | [] => Fulfilled 0%nat
                   | _ => Rejected handlerFailure
                   end),
     recordEvent (logger_info_call "worker created") st).

(** An inherited [init] that does nothing. *)
Definition exampleSuperInit (callback : unit) : M Z unit := ret tt.

(** * Properties *)

Section Properties.

Context {Header IBlock : Type}.
Variable env : Env Header.
Implicit Types (st : State Header) (evs : list (Event Header)) (t : Task).

(** ** Running the primitives *)

Lemma addEvents_nil st : addEvents st [] = st.
Proof. destruct st; unfold addEvents; cbn. now rewrite app_nil_r. Qed.

Lemma addEvents_app st evs1 evs2 :
  addEvents (addEvents st evs1) evs2 = addEvents st (evs1 ++ evs2).
Proof. unfold addEvents; cbn. now rewrite app_assoc. Qed.

Lemma call_run (ev : Event Header) st : call ev st = (Ret tt, addEvents st [ev]).
Proof. reflexivity. Qed.

Lemma callAsync_run {A : Type} (ev : Event Header) (p : Promise Header A) st :
  callAsync ev p st = (Ret p, addEvents st [ev]).
Proof. reflexivity. Qed.

Lemma process_exit_run {A : Type} (code : Z) st :
  @process_exit Header A code st
  = (Exited code, addEvents st [process_exit_call code]).
Proof. reflexivity. Qed.

Lemma Array_map_callAsync {A X : Type} (ev : X -> Event Header)
    (p : X -> Promise Header A) (xs : list X) st :
  Array_map (fun x => callAsync (ev x) (p x)) xs st
  = (Ret (map p xs), addEvents st (map ev xs)).
Proof.
  revert st; induction xs as [|x xs IH]; intros st; cbn [Array_map map].
  - unfold ret. now rewrite addEvents_nil.
  - unfold bind. rewrite callAsync_run, IH, addEvents_app.
    reflexivity.
Qed.

(** ** The processing task *)

Lemma processBlock_catch_swallowed t e st :
  swallowed env e = true -> processBlock_catch env t e st = (Ret tt, st).
Proof.
  unfold swallowed, processBlock_catch.
  destruct (isTaskFlushedError env e); [reflexivity|].
  destruct (isBlockUnavailableError env e); [reflexivity|discriminate].
Qed.

Lemma processBlock_catch_fatal t err st :
  swallowed env (object err) = false ->
  processBlock_catch env t (object err) st
  = (Exited 1, addEvents st [logger_error_call err (failedToIndex (height t) err);
                             process_exit_call 1]).
Proof.
  unfold swallowed, processBlock_catch.
  destruct (isTaskFlushedError env (object err)); [discriminate|].
  destruct (isBlockUnavailableError env (object err)); [discriminate|]. intros _.
  unfold bind. rewrite call_run, process_exit_run, addEvents_app. reflexivity.
Qed.

Lemma processBlock_catch_undefined t st :
  swallowed env undefined = false ->
  processBlock_catch env t undefined st
  = (Throw (TypeError "Cannot read properties of undefined (reading 'handler')"), st).
Proof.
  unfold swallowed, processBlock_catch.
  destruct (isTaskFlushedError env undefined); [discriminate|].
  destruct (isBlockUnavailableError env undefined); [discriminate|reflexivity].
Qed.

Lemma processBlock_catch_null t st :
  swallowed env null = false ->
  processBlock_catch env t null st
  = (Throw (TypeError "Cannot read properties of null (reading 'handler')"), st).
Proof.
  unfold swallowed, processBlock_catch.
  destruct (isTaskFlushedError env null); [discriminate|].
  destruct (isBlockUnavailableError env null); [discriminate|reflexivity].
Qed.

(** The three ways of the [catch] block. *)
Lemma processBlock_catch_cases t e st :
  processBlock_catch env t e st = (Ret tt, st) \/
  (exists msg, processBlock_catch env t e st = (Throw (TypeError msg), st)) \/
  (exists err,
      e = object err /\
      processBlock_catch env t e st
      = (Exited 1, addEvents st [logger_error_call err (failedToIndex (height t) err);
                                 process_exit_call 1])).
Proof.
  destruct (swallowed env e) eqn:Hsw.
  - left. now apply processBlock_catch_swallowed.
  - right. destruct e as [| |err].
    + left. eexists. now apply processBlock_catch_undefined.
    + left. eexists. now apply processBlock_catch_null.
    + right. exists err. split; [reflexivity|]. now apply processBlock_catch_fatal.
Qed.

(** The [try] block follows one of the five ways of [TryRun]. *)
Lemma processBlock_try_cases t st : TryRun env t st (processBlock_try env t st).
Proof.
  unfold processBlock_try, bind, await, latestBufferedHeight, gets.
  destruct (fetchBlock_answer env (worker t) (height t) (history st))
    as [header|e] eqn:Hfetch; [|now constructor].
  destruct (bufferedHeight t >? _latestBufferedHeight st) eqn:Hfence.
  - rewrite call_run. apply Discarded with header; [assumption|].
    now apply Z.gtb_gt.
  - assert (Hle : bufferedHeight t <= _latestBufferedHeight st).
    { rewrite Z.gtb_ltb in Hfence. now apply Z.ltb_ge in Hfence. }
    fold (processingFrom t).
    unfold preProcessBlock. rewrite callAsync_run.
    cbn [history addEvents].
    destruct (preProcessBlock_answer env header _) as [[]|e] eqn:Hpre;
      [|now apply PreProcessFailed].
    rewrite call_run. unfold worker_processBlock. rewrite callAsync_run.
    rewrite !addEvents_app. cbn [history addEvents app].
    destruct (processBlock_answer env (worker t) (height t) _)
      as [response|e] eqn:Hproc; [|now apply WorkerFailed].
    unfold postProcessBlock. rewrite callAsync_run.
    rewrite !addEvents_app. cbn [history addEvents app].
    destruct (postProcessBlock_answer env header _ _) as [[]|e] eqn:Hpost.
    + now apply (PostProcessSettled _ env t st header response (Fulfilled tt)).
    + now apply (PostProcessSettled _ env t st header response (Rejected e)).
Qed.

(** The [try] block only adds calls to the history, and neither logs a
    failure nor asks the process to end. *)
Lemma processBlock_try_quiet t st :
  exists evs,
    snd (processBlock_try env t st) = addEvents st evs /\
    exitCalls evs = [] /\ errorsLogged evs = [].
Proof.
  destruct (processBlock_try_cases t st); cbn [snd].
  - exists []. now rewrite addEvents_nil.
  - eexists; repeat split.
  - eexists; repeat split.
  - eexists; repeat split.
  - eexists; repeat split.
Qed.

(** A stale task: whatever the fetch brought, the [try] block calls neither
    hook nor the worker. *)
Lemma stale_try_run t st :
  bufferedHeight t > _latestBufferedHeight st ->
  (exists e, processBlock_try env t st = (Throw e, st)) \/
  processBlock_try env t st
  = (Ret tt,
     addEvents st
       [logger_debug_call "Queue was reset for new DS, discarding fetched blocks"]).
Proof.
  intros Hstale. destruct (processBlock_try_cases t st); try lia.
  - left; now exists e.
  - now right.
Qed.

Lemma stale_task_run t st :
  bufferedHeight t > _latestBufferedHeight st ->
  exists evs,
    snd (processBlock env t st) = addEvents st evs /\
    forallb (fun ev => negb (isProcessingCall ev)) evs = true.
Proof.
  intros Hstale. unfold processBlock, tryCatch.
  destruct (stale_try_run t st Hstale) as [[e He]|Hrun].
  - rewrite He.
    destruct (processBlock_catch_cases t e st) as [Hc|[[msg Hc]|(err & _ & Hc)]];
      rewrite Hc.
    + exists []. now rewrite addEvents_nil.
    + exists []. now rewrite addEvents_nil.
    + eexists; split; reflexivity.
  - rewrite Hrun. eexists; split; reflexivity.
Qed.

(** C1. A task whose fencing token [bufferedHeight], taken from the counter
    when the block was assigned, is greater than the counter when the task
    runs, does nothing for its block: all it adds to the history are calls
    that are neither the pre-processing hook, nor [processBlock] of the
    worker, nor the post-processing hook, and the fields of the dispatcher
    stay as they are.  When the fetch brought a header the task returns, and
    its one call is the debug line of the logger. *)
Theorem stale_task_is_discarded :
  forall t st,
    bufferedHeight t > _latestBufferedHeight st ->
    (exists evs,
        snd (processBlock env t st) = addEvents st evs /\
        forallb (fun ev => negb (isProcessingCall ev)) evs = true) /\
    (forall header,
        fetchBlock_answer env (worker t) (height t) (history st) = Fulfilled header ->
        processBlock env t st
        = (Ret tt,
           addEvents st
             [logger_debug_call
                "Queue was reset for new DS, discarding fetched blocks"])).
Proof.
  intros t st Hstale. split; [now apply stale_task_run|].
  intros header Hfetch. unfold processBlock, tryCatch.
  destruct (processBlock_try_cases t st); try lia; [congruence|reflexivity].
Qed.

(** A failure ends the [try] block where it is met. *)
Lemma Fails_try_run t st e evs :
  Fails env t st e evs -> processBlock_try env t st = (Throw e, addEvents st evs).
Proof.
  intros Hfails.
  destruct (processBlock_try_cases t st)
    as [e' Hf|header Hf Hgt|header e' Hf Hle Hpre|header e' Hf Hle Hpre Hproc
        |header response settled Hf Hle Hpre Hproc Hpost];
    destruct Hfails
      as [e0 Gf|header0 e0 Gf Gle Gpre|header0 e0 Gf Gle Gpre Gproc
          |header0 response0 e0 Gf Gle Gpre Gproc Gpost];
    rewrite Gf in Hf; try discriminate Hf;
    try (injection Hf as ->); try lia;
    try (rewrite Gpre in Hpre; try discriminate Hpre; try (injection Hpre as ->));
    try (rewrite Gproc in Hproc; try discriminate Hproc; try (injection Hproc as ->)).
  - now rewrite addEvents_nil.
  - reflexivity.
  - reflexivity.
  - rewrite Gpost in Hpost. subst settled. reflexivity.
Qed.

Lemma Fails_quiet t st e evs :
  Fails env t st e evs -> exitCalls evs = [] /\ errorsLogged evs = [].
Proof. intros []; split; reflexivity. Qed.

(** ** Shutting down *)

Lemma onApplicationShutdown_run st :
  let hist := history st ++ queue_abort_call :: map terminate_call (workers st) in
  let results := map (fun w => terminate_answer env w hist) (workers st) in
  onApplicationShutdown env st
  = (match settleAll results with
     | Fulfilled _ => Ret tt
     | Rejected earliest =>
         Throw (nth (rejectsFirst env hist) (rejections results) earliest)
     end,
     addEvents (with_isShutdown true st)
               (queue_abort_call :: map terminate_call (workers st))).
Proof.
  cbv zeta. unfold onApplicationShutdown, bind, modify, gets.
  rewrite call_run. cbn [workers addEvents with_isShutdown].
  unfold worker_terminate.
  rewrite (Array_map_callAsync terminate_call (terminate_answer env)).
  rewrite addEvents_app. cbn [app].
  unfold await, Promise_all. rewrite map_map. cbn [history addEvents with_isShutdown].
  destruct (settleAll _); reflexivity.
Qed.

Lemma terminateCalls_map (ws : list Worker) :
  terminateCalls (map (@terminate_call Header) ws) = ws.
Proof. induction ws as [|w ws IH]; cbn; [reflexivity|]. f_equal. exact IH. Qed.

Lemma abortCalls_terminate (ws : list Worker) :
  abortCalls (map (@terminate_call Header) ws) = 0%nat.
Proof. induction ws as [|w ws IH]; cbn; [reflexivity|exact IH]. Qed.

Lemma enqueueBlock_after_shutdown st h idx :
  isShutdown st = true -> enqueueBlock env h idx st = (Ret tt, st).
Proof. intros Hs. unfold enqueueBlock, bind, gets. now rewrite Hs. Qed.
(** ** Choosing a worker *)

(** The state once every worker of the pool was asked for its status. *)
Lemma getNextWorkerIndex_run st :
  let asked := map getStatus_call (workers st) in
  let drawn := asked ++ [Math_random_call] in
  let results := map (fun w => getStatus_answer env w (history st ++ asked))
                      (workers st) in
  getNextWorkerIndex env st
  = match settleAll results with
    | Rejected earliest =>
        (Throw (nth (rejectsFirst env (history st ++ asked)) (rejections results) earliest),
         addEvents st asked)
    | Fulfilled statuses =>
        let r := random_answer env (history st ++ drawn) in
        match Array_get (lowestOf statuses)
                (Math.floor (times r (Array_length (lowestOf statuses)))) with
        | Some s => (Ret (threadId s - 1), addEvents st drawn)
        | None =>
            (Throw (TypeError "Cannot read properties of undefined (reading 'threadId')"),
             addEvents st drawn)
        end
    end.
Proof.
  cbv zeta. unfold getNextWorkerIndex, bind, gets, worker_getStatus.
  rewrite (Array_map_callAsync getStatus_call (getStatus_answer env)).
  unfold await, Promise_all. rewrite map_map. cbn [history addEvents].
  destruct (settleAll _) as [statuses|e]; [|reflexivity].
  unfold Math_random, bind, gets. rewrite call_run, addEvents_app.
  cbn [history addEvents]. unfold ret.
  destruct (Array_get _ _); reflexivity.
Qed.

Lemma set_latestBufferedHeight_run st h :
  set_latestBufferedHeight env h st
  = (Ret tt,
     addEvents (with_latestBufferedHeight h st)
       [eventEmitter_emit_call BlockQueueSize (queueSize_answer env (history st))]).
Proof. reflexivity. Qed.

Lemma enqueueBlock_run st h idx w :
  isShutdown st = false ->
  Array_get (workers st) idx = Some w ->
  enqueueBlock env h idx st
  = (Ret tt, addEvents st (assignments w idx (_latestBufferedHeight st) [h])).
Proof.
  intros Hs Hw. unfold enqueueBlock, latestBufferedHeight, fetchBlock, bind, gets.
  cbv beta iota. rewrite Hs, Hw. cbv beta iota.
  rewrite callAsync_run, call_run, addEvents_app. reflexivity.
Qed.

Lemma enqueueBlock_no_worker st h idx :
  isShutdown st = false ->
  Array_get (workers st) idx = None ->
  enqueueBlock env h idx st
  = (Throw (AssertionError ("Worker " ++ toString idx ++ " not found")), st).
Proof.
  intros Hs Hw. unfold enqueueBlock, bind, gets. cbv beta iota.
  now rewrite Hs, Hw.
Qed.

Lemma assignments_cons w idx fence h hs :
  @assignments Header w idx fence (h :: hs)
  = assignments w idx fence [h] ++ assignments w idx fence hs.
Proof. reflexivity. Qed.

Lemma Array_map_enqueueBlock_run st idx w heights :
  isShutdown st = false ->
  Array_get (workers st) idx = Some w ->
  Array_map (fun h => enqueueBlock env h idx) heights st
  = (Ret (map (fun _ => tt) heights),
     addEvents st (assignments w idx (_latestBufferedHeight st) heights)).
Proof.
  revert st; induction heights as [|h hs IH]; intros st Hs Hw; cbn [Array_map map].
  - unfold ret. cbn. now rewrite addEvents_nil.
  - unfold bind. rewrite (enqueueBlock_run st h idx w Hs Hw).
    rewrite IH by assumption. cbn [_latestBufferedHeight addEvents].
    rewrite addEvents_app, <- assignments_cons. reflexivity.
Qed.

Lemma Array_map_enqueueBlock_shutdown st idx heights :
  isShutdown st = true ->
  Array_map (fun h => enqueueBlock env h idx) heights st
  = (Ret (map (fun _ => tt) heights), st).
Proof.
  intros Hs. induction heights as [|h hs IH]; cbn [Array_map map]; [reflexivity|].
  unfold bind. rewrite enqueueBlock_after_shutdown by assumption.
  now rewrite IH.
Qed.

Lemma Array_map_enqueueBlock_no_worker st idx h hs :
  isShutdown st = false ->
  Array_get (workers st) idx = None ->
  Array_map (fun h => enqueueBlock env h idx) (h :: hs) st
  = (Throw (AssertionError ("Worker " ++ toString idx ++ " not found")), st).
Proof.
  intros Hs Hw. cbn [Array_map]. unfold bind.
  now rewrite enqueueBlock_no_worker.
Qed.

(** ** Steady computations *)

Lemma continues_refl st : continues st st.
Proof. repeat split. exists []. now rewrite app_nil_r. Qed.

Lemma continues_trans st1 st2 st3 :
  continues st1 st2 -> continues st2 st3 -> continues st1 st3.
Proof.
  intros (Hw1 & Hs1 & evs1 & Hh1) (Hw2 & Hs2 & evs2 & Hh2).
  repeat split; [congruence|congruence|].
  exists (evs1 ++ evs2). now rewrite Hh2, Hh1, app_assoc.
Qed.

Lemma continues_addEvents st evs : continues st (addEvents st evs).
Proof. repeat split. now exists evs. Qed.

Lemma continues_with_latestBufferedHeight st h :
  continues st (with_latestBufferedHeight h st).
Proof. repeat split. exists []. cbn. now rewrite app_nil_r. Qed.

Lemma steady_ret {A : Type} (a : A) : steady (@ret Header A a).
Proof. intros st. apply continues_refl. Qed.

Lemma steady_throw {A : Type} (e : Thrown) : steady (@throw Header A e).
Proof. intros st. apply continues_refl. Qed.

Lemma steady_gets {A : Type} (f : State Header -> A) : steady (gets f).
Proof. intros st. apply continues_refl. Qed.

Lemma steady_await {A : Type} (p : Promise Header A) : steady (await p).
Proof.
  intros st. unfold await. destruct (p (history st)); apply continues_refl.
Qed.

Lemma steady_call (ev : Event Header) : steady (call ev).
Proof. intros st. apply continues_addEvents. Qed.

Lemma steady_callAsync {A : Type} (ev : Event Header) (p : Promise Header A) :
  steady (callAsync ev p).
Proof. intros st. apply continues_addEvents. Qed.

Lemma steady_process_exit {A : Type} (code : Z) : steady (@process_exit Header A code).
Proof. intros st. apply continues_addEvents. Qed.

Lemma steady_bind {A B : Type} (m : M Header A) (k : A -> M Header B) :
  steady m -> (forall a, steady (k a)) -> steady (bind m k).
Proof.
  intros Hm Hk st. unfold bind. specialize (Hm st).
  destruct (m st) as [[a|e|c] st1]; cbn [snd] in *; try assumption.
  eapply continues_trans; [exact Hm|apply Hk].
Qed.

Lemma steady_tryCatch {A : Type} (body : M Header A) (handler : Thrown -> M Header A) :
  steady body -> (forall e, steady (handler e)) -> steady (tryCatch body handler).
Proof.
  intros Hb Hh st. unfold tryCatch. specialize (Hb st).
  destruct (body st) as [[a|e|c] st1]; cbn [snd] in *; try assumption.
  eapply continues_trans; [exact Hb|apply Hh].
Qed.

Lemma steady_Array_map {A B : Type} (callback : A -> M Header B) (array : list A) :
  (forall x, steady (callback x)) -> steady (Array_map callback array).
Proof.
  intros Hc. induction array as [|x rest IH]; cbn [Array_map].
  - apply steady_ret.
  - apply steady_bind; [apply Hc|]. intros y.
    apply steady_bind; [exact IH|]. intros ys. apply steady_ret.
Qed.

Lemma steady_super_set_latestBufferedHeight h :
  steady (@super_set_latestBufferedHeight Header h).
Proof. intros st. apply continues_with_latestBufferedHeight. Qed.

Create HintDb steady.

#[local] Hint Resolve steady_ret steady_throw steady_gets steady_await steady_call
  steady_callAsync steady_process_exit steady_super_set_latestBufferedHeight : steady.

(** Splitting a computation along its binds, branches and loops. *)
Ltac steady_step :=
  match goal with
  | |- steady (bind _ _) => apply steady_bind; [|intros ?]
  | |- steady (tryCatch _ _) => apply steady_tryCatch; [|intros ?]
  | |- steady (Array_map _ _) => apply steady_Array_map; intros ?
  | |- steady (if ?b then _ else _) => destruct b
  | |- steady (match ?x with _ => _ end) => destruct x
  | |- steady _ => solve [auto with steady]
  end.

Lemma steady_set_latestBufferedHeight h : steady (set_latestBufferedHeight env h).
Proof. unfold set_latestBufferedHeight, queueSize. repeat steady_step. Qed.

Lemma steady_getNextWorkerIndex : steady (getNextWorkerIndex env).
Proof.
  unfold getNextWorkerIndex, worker_getStatus, Math_random. cbv zeta.
  repeat steady_step.
Qed.

Lemma steady_enqueueBlock h idx : steady (enqueueBlock env h idx).
Proof.
  unfold enqueueBlock, latestBufferedHeight, fetchBlock. repeat steady_step.
Qed.

Lemma steady_processBlock t : steady (processBlock env t).
Proof.
  unfold processBlock, processBlock_try, processBlock_catch, latestBufferedHeight,
    preProcessBlock, worker_processBlock, postProcessBlock.
  repeat steady_step.
Qed.

Lemma steady_enqueueBlocks (heights : list (Item IBlock)) latest :
  steady (enqueueBlocks env heights latest).
Proof.
  unfold enqueueBlocks, latestBufferedHeight. cbv zeta.
  repeat steady_step.
  - apply steady_getNextWorkerIndex.
  - apply steady_enqueueBlock.
  - apply steady_set_latestBufferedHeight.
Qed.

(** No operation takes a shutdown back. *)
Lemma step_after_shutdown st (a : Action IBlock) :
  isShutdown st = true ->
  isShutdown (step env st a) = true /\ workers (step env st a) = workers st.
Proof.
  intros Hs. destruct a as [heights latest|t|h|]; cbn [step].
  - destruct (steady_enqueueBlocks heights latest st) as (Hw & Hs' & _).
    split; congruence.
  - destruct (steady_processBlock t st) as (Hw & Hs' & _). split; congruence.
  - destruct (steady_set_latestBufferedHeight h st) as (Hw & Hs' & _).
    split; congruence.
  - rewrite onApplicationShutdown_run. cbn. now split.
Qed.

Lemma run_after_shutdown st (actions : list (Action IBlock)) :
  isShutdown st = true ->
  isShutdown (run env st actions) = true /\ workers (run env st actions) = workers st.
Proof.
  revert st. induction actions as [|a actions IH]; intros st Hs; cbn [run fold_left].
  - now split.
  - destruct (step_after_shutdown st a Hs) as (Hs1 & Hw1).
    destruct (IH _ Hs1) as (Hs2 & Hw2). fold (run env (step env st a) actions).
    split; congruence.
Qed.

Lemma terminateCalls_abort evs :
  terminateCalls (queue_abort_call :: evs) = terminateCalls evs.
Proof. reflexivity. Qed.

Lemma count_occ_once (ws : list Worker) (w : Worker) :
  NoDup ws -> In w ws -> count_occ Nat.eq_dec ws w = 1%nat.
Proof. intros Hnd Hin. now apply NoDup_count_occ'. Qed.

(** C2. Whatever the workers answer to [terminate], once
    [onApplicationShutdown] is through the shutdown flag is set and the pool
    is as it was; the calls made are one [abort] of the queue and one
    [terminate] for each entry of the pool, in the order of the pool, so that
    a handle the pool holds once is terminated once; and from then on,
    whatever operations follow, [enqueueBlock] returns at once: the state,
    and with it the history of calls to workers and queue, stays as it
    was. *)
Theorem shutdown_is_final :
  forall st,
    let st' := snd (onApplicationShutdown env st) in
    isShutdown st' = true /\
    workers st' = workers st /\
    (exists evs,
        history st' = history st ++ evs /\
        abortCalls evs = 1%nat /\
        terminateCalls evs = workers st /\
        (NoDup (workers st) ->
         forall w, In w (workers st) ->
                   count_occ Nat.eq_dec (terminateCalls evs) w = 1%nat)) /\
    (forall (actions : list (Action IBlock)) h idx,
        let later := run env st' actions in
        enqueueBlock env h idx later = (Ret tt, later)).
Proof.
  intros st st'. subst st'. rewrite onApplicationShutdown_run. cbn [snd].
  split; [reflexivity|]. split; [reflexivity|]. split.
  - exists (queue_abort_call :: map terminate_call (workers st)).
    split; [reflexivity|]. split; [|split].
    + unfold abortCalls. cbn [filter List.length]. f_equal.
      apply abortCalls_terminate.
    + rewrite terminateCalls_abort. apply terminateCalls_map.
    + intros Hnd w Hin. rewrite terminateCalls_abort, terminateCalls_map.
      now apply count_occ_once.
  - intros actions h idx. apply enqueueBlock_after_shutdown.
    now apply run_after_shutdown.
Qed.

(** ** Reading the calls of an assignment *)

Lemma statusCalls_getStatus (ws : list Worker) :
  statusCalls (map (@getStatus_call Header) ws) = ws.
Proof. induction ws as [|w ws IH]; cbn; [reflexivity|]. f_equal. exact IH. Qed.

Lemma fetchCalls_getStatus (ws : list Worker) :
  fetchCalls (map (@getStatus_call Header) ws) = [].
Proof. induction ws as [|w ws IH]; cbn; [reflexivity|exact IH]. Qed.

Lemma putCalls_getStatus (ws : list Worker) :
  putCalls (map (@getStatus_call Header) ws) = [].
Proof. induction ws as [|w ws IH]; cbn; [reflexivity|exact IH]. Qed.

Lemma randomCalls_getStatus (ws : list Worker) :
  randomCalls (map (@getStatus_call Header) ws) = 0%nat.
Proof. induction ws as [|w ws IH]; cbn; [reflexivity|exact IH]. Qed.

Lemma statusCalls_assignments w idx fence hs :
  statusCalls (@assignments Header w idx fence hs) = [].
Proof. induction hs as [|h hs IH]; cbn; [reflexivity|exact IH]. Qed.

Lemma randomCalls_assignments w idx fence hs :
  randomCalls (@assignments Header w idx fence hs) = 0%nat.
Proof. induction hs as [|h hs IH]; cbn; [reflexivity|exact IH]. Qed.

Lemma fetchCalls_assignments w idx fence hs :
  fetchCalls (@assignments Header w idx fence hs) = map (fun h => (w, h)) hs.
Proof. induction hs as [|h hs IH]; cbn; [reflexivity|]. f_equal. exact IH. Qed.

Lemma putCalls_assignments w idx fence hs :
  putCalls (@assignments Header w idx fence hs)
  = map (fun h => mkTask h idx w fence) hs.
Proof. induction hs as [|h hs IH]; cbn; [reflexivity|]. f_equal. exact IH. Qed.

Lemma statusCalls_app evs1 evs2 :
  statusCalls (evs1 ++ evs2) = statusCalls evs1 ++ statusCalls evs2.
Proof. apply flat_map_app. Qed.

Lemma fetchCalls_app evs1 evs2 :
  fetchCalls (evs1 ++ evs2) = fetchCalls evs1 ++ fetchCalls evs2.
Proof. apply flat_map_app. Qed.

Lemma putCalls_app evs1 evs2 :
  putCalls (evs1 ++ evs2) = putCalls evs1 ++ putCalls evs2.
Proof. apply flat_map_app. Qed.

Lemma randomCalls_app evs1 evs2 :
  randomCalls (evs1 ++ evs2) = (randomCalls evs1 + randomCalls evs2)%nat.
Proof. unfold randomCalls. now rewrite filter_app, length_app. Qed.

(** ** Numbers and blocks *)

Lemma everyNumber_Some (heights : list (Item IBlock)) ns :
  everyNumber heights = Some ns -> heights = map Number ns.
Proof.
  revert ns; induction heights as [|[n|b] rest IH]; intros ns H; cbn in H.
  - now inversion H.
  - destruct (everyNumber rest) as [ms|]; [|discriminate].
    inversion H; subst. cbn. f_equal. now apply IH.
  - discriminate.
Qed.

Lemma everyNumber_Block (heights : list (Item IBlock)) b :
  In (Block b) heights -> everyNumber heights = None.
Proof.
  induction heights as [|[n|b'] rest IH]; intros Hin; cbn.
  - destruct Hin.
  - destruct Hin as [Heq|Hin]; [discriminate|]. now rewrite IH.
  - reflexivity.
Qed.

(** ** Enqueuing a batch *)

Lemma enqueueBlocks_run (heights : list (Item IBlock)) latest st :
  enqueueBlocks env heights latest st
  = match everyNumber heights with
    | None =>
        (Throw (AssertionError
                  "Worker block dispatcher only supports enqueuing numbers, not blocks."),
         st)
    | Some ns =>
        let batch := bypass ns latest in
        match getNextWorkerIndex env
                (addEvents st [logger_info_call (enqueueing batch)]) with
        | (Ret idx, st2) =>
            match Array_map (fun h => enqueueBlock env h idx) batch st2 with
            | (Ret _, st3) =>
                set_latestBufferedHeight env
                  (nextLatest latest batch (_latestBufferedHeight st3)) st3
            | (Throw e, st3) => (Throw e, st3)
            | (Exited c, st3) => (Exited c, st3)
            end
        | (Throw e, st2) => (Throw e, st2)
        | (Exited c, st2) => (Exited c, st2)
        end
    end.
Proof.
  unfold enqueueBlocks. destruct (everyNumber heights) as [ns|]; [|reflexivity].
  cbv zeta. unfold bind at 1. rewrite call_run. unfold bind at 1.
  destruct (getNextWorkerIndex env _) as [[idx|e|c] st2]; reflexivity.
Qed.

(** C8. A batch that holds a block, and not only heights, is refused with the
    assertion error, and the refusal is all that happens: the state, and so
    the history of calls, is as before. *)
Theorem blocks_are_refused :
  forall (heights : list (Item IBlock)) latest st,
    (exists b, In (Block b) heights) ->
    enqueueBlocks env heights latest st
    = (Throw (AssertionError
                "Worker block dispatcher only supports enqueuing numbers, not blocks."),
       st).
Proof.
  intros heights latest st [b Hin]. rewrite enqueueBlocks_run.
  now rewrite (everyNumber_Block heights b Hin).
Qed.

(** What [getNextWorkerIndex] leaves behind when it returns. *)
Lemma getNextWorkerIndex_Ret st idx st' :
  getNextWorkerIndex env st = (Ret idx, st') ->
  st' = addEvents st (map getStatus_call (workers st) ++ [Math_random_call]).
Proof.
  rewrite getNextWorkerIndex_run. cbv zeta.
  destruct (settleAll _) as [statuses|e]; [|discriminate].
  destruct (Array_get _ _); [|discriminate]. now inversion 1.
Qed.

(** Whether it returns or not, it has asked every worker, and has neither
    started a fetch nor given the queue a task. *)
Lemma getNextWorkerIndex_calls st :
  exists evs,
    snd (getNextWorkerIndex env st) = addEvents st evs /\
    statusCalls evs = workers st /\ fetchCalls evs = [] /\ putCalls evs = [].
Proof.
  rewrite getNextWorkerIndex_run. cbv zeta.
  assert (Hdrawn :
    statusCalls (map (@getStatus_call Header) (workers st) ++ [Math_random_call])
      = workers st /\
    fetchCalls (map (@getStatus_call Header) (workers st) ++ [Math_random_call]) = [] /\
    putCalls (map (@getStatus_call Header) (workers st) ++ [Math_random_call]) = []).
  { rewrite statusCalls_app, fetchCalls_app, putCalls_app.
    rewrite statusCalls_getStatus, fetchCalls_getStatus, putCalls_getStatus.
    cbn. now rewrite app_nil_r. }
  destruct (settleAll _) as [statuses|e].
  - destruct (Array_get _ _); eexists; (split; [reflexivity|exact Hdrawn]).
  - eexists; split; [reflexivity|].
    now rewrite statusCalls_getStatus, fetchCalls_getStatus, putCalls_getStatus.
Qed.

(** What [enqueueBlocks] does with the batch once it is settled, when it
    comes to an end. *)
Lemma dispatch_Ret (batch : list Z) latest st st' :
  match getNextWorkerIndex env
          (addEvents st [logger_info_call (enqueueing batch)]) with
  | (Ret idx, st2) =>
      match Array_map (fun h => enqueueBlock env h idx) batch st2 with
      | (Ret _, st3) =>
          set_latestBufferedHeight env
            (nextLatest latest batch (_latestBufferedHeight st3)) st3
      | (Throw e, st3) => (Throw e, st3)
      | (Exited c, st3) => (Exited c, st3)
      end
  | (Throw e, st2) => (Throw e, st2)
  | (Exited c, st2) => (Exited c, st2)
  end = (Ret tt, st') ->
  exists idx evsA,
    let evs := [logger_info_call (enqueueing batch)]
               ++ map getStatus_call (workers st) ++ [Math_random_call] ++ evsA in
    fst (getNextWorkerIndex env
           (addEvents st [logger_info_call (enqueueing batch)])) = Ret idx /\
    (isShutdown st = true -> evsA = []) /\
    (batch = [] -> evsA = []) /\
    (isShutdown st = false -> batch <> [] ->
     exists w, Array_get (workers st) idx = Some w /\
               evsA = assignments w idx (_latestBufferedHeight st) batch) /\
    st' = addEvents
            (with_latestBufferedHeight
               (nextLatest latest batch (_latestBufferedHeight st))
               (addEvents st evs))
            [eventEmitter_emit_call BlockQueueSize
               (queueSize_answer env (history st ++ evs))].
Proof.
  destruct (getNextWorkerIndex env _) as [[idx|e|c] st2] eqn:Hlb; try discriminate.
  apply getNextWorkerIndex_Ret in Hlb. rewrite addEvents_app in Hlb.
  cbn [workers addEvents] in Hlb.
  assert (Hs2 : isShutdown st2 = isShutdown st) by now subst st2.
  assert (Hw2 : workers st2 = workers st) by now subst st2.
  assert (Hl2 : _latestBufferedHeight st2 = _latestBufferedHeight st) by now subst st2.
  destruct (isShutdown st) eqn:Hs.
  - rewrite Array_map_enqueueBlock_shutdown by assumption.
    rewrite set_latestBufferedHeight_run. intros H; inversion H; subst st'; clear H.
    exists idx, []. split; [reflexivity|]. split; [reflexivity|].
    split; [reflexivity|]. split; [discriminate|].
    rewrite Hl2. subst st2. reflexivity.
  - destruct batch as [|h hs].
    + cbn [Array_map]. unfold ret. rewrite set_latestBufferedHeight_run.
      intros H; inversion H; subst st'; clear H.
      exists idx, []. split; [reflexivity|]. split; [reflexivity|].
      split; [reflexivity|]. split; [intros _ Hne; now elim Hne|].
      rewrite Hl2. subst st2. reflexivity.
    + destruct (Array_get (workers st2) idx) as [w|] eqn:Hw.
      * rewrite (Array_map_enqueueBlock_run st2 idx w) by assumption.
        rewrite set_latestBufferedHeight_run. intros H; inversion H; subst st'; clear H.
        exists idx, (assignments w idx (_latestBufferedHeight st) (h :: hs)).
        split; [reflexivity|]. split; [discriminate|]. split; [discriminate|].
        split.
        { intros _ _. exists w. split; [congruence|reflexivity]. }
        rewrite Hl2. subst st2. rewrite addEvents_app.
        cbn [history addEvents _latestBufferedHeight].
        rewrite <- !app_assoc. reflexivity.
      * rewrite Array_map_enqueueBlock_no_worker by assumption. discriminate.
Qed.

(** The batch of an [enqueueBlocks] that returned. *)
Lemma enqueueBlocks_Ret (heights : list (Item IBlock)) latest st st' :
  enqueueBlocks env heights latest st = (Ret tt, st') ->
  exists ns idx evsA,
    heights = map Number ns /\
    let batch := bypass ns latest in
    let evs := [logger_info_call (enqueueing batch)]
               ++ map getStatus_call (workers st) ++ [Math_random_call] ++ evsA in
    fst (getNextWorkerIndex env
           (addEvents st [logger_info_call (enqueueing batch)])) = Ret idx /\
    (isShutdown st = true -> evsA = []) /\
    (batch = [] -> evsA = []) /\
    (isShutdown st = false -> batch <> [] ->
     exists w, Array_get (workers st) idx = Some w /\
               evsA = assignments w idx (_latestBufferedHeight st) batch) /\
    st' = addEvents
            (with_latestBufferedHeight
               (nextLatest latest batch (_latestBufferedHeight st))
               (addEvents st evs))
            [eventEmitter_emit_call BlockQueueSize
               (queueSize_answer env (history st ++ evs))].
Proof.
  rewrite enqueueBlocks_run.
  destruct (everyNumber heights) as [ns|] eqn:Hns; [|discriminate].
  apply everyNumber_Some in Hns. cbv zeta. intros Hrun.
  destruct (dispatch_Ret _ _ _ _ Hrun) as (idx & evsA & H).
  exists ns, idx, evsA. split; [assumption|exact H].
Qed.

Lemma bypass_nonempty ns latest : ns <> [] -> bypass ns latest = ns.
Proof.
  intros Hne. unfold bypass. destruct latest as [l|]; [|reflexivity].
  destruct ns as [|n ns]; [now elim Hne|].
  unfold Array_length. cbn [List.length].
  replace (Z.of_nat (S (List.length ns)) =? 0) with false
    by (symmetry; apply Z.eqb_neq; lia).
  now rewrite andb_false_r.
Qed.

Lemma bypass_zero : bypass [] (Some 0) = [].
Proof. reflexivity. Qed.

Lemma bypass_latest l : l <> 0 -> bypass [] (Some l) = [l].
Proof.
  intros Hl. unfold bypass. apply Z.eqb_neq in Hl. now rewrite Hl.
Qed.

(** C5. A call of [enqueueBlocks] with a batch that is not empty, and that
    returns: the batch held heights only; every worker of the pool was asked
    for its status once and one number was drawn, which is one run of
    [getNextWorkerIndex], with result [idx]; and, the dispatcher not being
    shut down, [idx] is the pool index of a worker [w] and each height of
    the batch was assigned once, in the order of the batch: its fetch was
    started on [w] and its task, for [w] and [idx], was put on the queue. *)
Theorem batch_goes_to_one_worker :
  forall (heights : list (Item IBlock)) latest st st',
    heights <> [] ->
    enqueueBlocks env heights latest st = (Ret tt, st') ->
    exists ns idx evs,
      heights = map Number ns /\
      history st' = history st ++ evs /\
      fst (getNextWorkerIndex env
             (addEvents st [logger_info_call (enqueueing ns)])) = Ret idx /\
      statusCalls evs = workers st /\
      randomCalls evs = 1%nat /\
      (isShutdown st = false ->
       exists w,
         Array_get (workers st) idx = Some w /\
         fetchCalls evs = map (fun h => (w, h)) ns /\
         putCalls evs
         = map (fun h => mkTask h idx w (_latestBufferedHeight st)) ns).
Proof.
  intros heights latest st st' Hne Hrun.
  destruct (enqueueBlocks_Ret heights latest st st' Hrun)
    as (ns & idx & evsA & Hns & Hidx & Hshut & _ & Hassign & Hst').
  assert (Hns' : ns <> []) by (intros ->; now apply Hne).
  rewrite (bypass_nonempty ns latest Hns') in *.
  eexists ns, idx, _. split; [assumption|].
  split; [rewrite Hst'; cbn [history addEvents with_latestBufferedHeight];
          rewrite <- app_assoc; reflexivity|].
  split; [exact Hidx|].
  rewrite <- !app_assoc.
  repeat rewrite ?statusCalls_app, ?fetchCalls_app, ?putCalls_app, ?randomCalls_app.
  rewrite statusCalls_getStatus, fetchCalls_getStatus, putCalls_getStatus,
    randomCalls_getStatus.
  destruct (isShutdown st) eqn:Hs.
  - rewrite (Hshut eq_refl). cbn. rewrite !app_nil_r.
    repeat split; try reflexivity. discriminate.
  - destruct (Hassign eq_refl Hns') as (w & Hw & HevsA). subst evsA.
    rewrite statusCalls_assignments, fetchCalls_assignments,
      putCalls_assignments, randomCalls_assignments.
    cbn. rewrite !app_nil_r. repeat split; try reflexivity.
    intros _. exists w. repeat split; try reflexivity. assumption.
Qed.

Lemma last_snoc {A : Type} (front : list A) (x : A) :
  lodash.last (front ++ [x]) = Some x.
Proof.
  induction front as [|y front IH]; [reflexivity|]. cbn [app].
  destruct (front ++ [x]) as [|z rest] eqn:Hrest.
  - destruct front; discriminate Hrest.
  - exact IH.
Qed.

Lemma map_Number_snoc (ns : list Z) (front : list (Item IBlock)) (h : Z) :
  map Number ns = front ++ [Number h] -> exists ms, ns = ms ++ [h].
Proof.
  intros Hmap. destruct ns as [|n ms _] using rev_ind.
  - destruct front; discriminate Hmap.
  - rewrite map_app in Hmap. cbn [map] in Hmap.
    apply app_inj_tail in Hmap. destruct Hmap as [_ Hlast].
    exists ms. congruence.
Qed.

(** C7. After a call of [enqueueBlocks] that returns, the counter is the
    latest height handed in when one was handed in.  Without one it is the
    height [h] the batch ends with when there is one, and what it was before
    when the batch is empty. *)
Theorem counter_after_enqueueBlocks :
  forall (heights : list (Item IBlock)) latest st st',
    enqueueBlocks env heights latest st = (Ret tt, st') ->
    match latest with
    | Some known => _latestBufferedHeight st' = known
    | None =>
        (forall front h,
            heights = front ++ [Number h] -> _latestBufferedHeight st' = h) /\
        (heights = [] -> _latestBufferedHeight st' = _latestBufferedHeight st)
    end.
Proof.
  intros heights latest st st' Hrun.
  destruct (enqueueBlocks_Ret heights latest st st' Hrun)
    as (ns & idx & evsA & Hns & _ & _ & _ & _ & Hst').
  rewrite Hst'.
  cbn [_latestBufferedHeight addEvents with_latestBufferedHeight].
  destruct latest as [known|]; [reflexivity|].
  unfold nextLatest, bypass. split.
  - intros front h Hbatch. rewrite Hbatch in Hns. symmetry in Hns.
    destruct (map_Number_snoc ns front h Hns) as [ms ->].
    now rewrite last_snoc.
  - intros Hempty. rewrite Hempty in Hns. destruct ns; [reflexivity|discriminate].
Qed.

(** The empty batch with a latest height that is not zero: the one block
    assigned is that of the latest height. *)
Lemma empty_batch_bypass (latest : Z) st st' :
  latest <> 0 ->
  isShutdown st = false ->
  enqueueBlocks env (@nil (Item IBlock)) (Some latest) st = (Ret tt, st') ->
  exists idx w evs,
    history st' = history st ++ evs /\
    Array_get (workers st) idx = Some w /\
    fetchCalls evs = [(w, latest)] /\
    putCalls evs = [mkTask latest idx w (_latestBufferedHeight st)].
Proof.
  intros Hl Hs Hrun.
  destruct (enqueueBlocks_Ret [] (Some latest) st st' Hrun)
    as (ns & idx & evsA & Hns & _ & _ & _ & Hassign & Hst').
  destruct ns; [|discriminate]. rewrite (bypass_latest latest Hl) in *.
  destruct (Hassign Hs ltac:(discriminate)) as (w & Hw & HevsA). subst evsA.
  eexists idx, w, _.
  split; [rewrite Hst'; cbn [history addEvents with_latestBufferedHeight];
          rewrite <- app_assoc; reflexivity|].
  split; [assumption|].
  rewrite <- !app_assoc.
  repeat rewrite ?fetchCalls_app, ?putCalls_app.
  rewrite fetchCalls_getStatus, putCalls_getStatus. split; reflexivity.
Qed.

(** C10. A call [enqueueBlocks([], 0)], however it ends, starts no fetch and
    puts no task on the queue: the zero is taken for a missing height and the
    batch stays empty.  When the call returns the counter is 0 all the same,
    and then every task whose fencing token is above 0, which is every task
    assigned while the counter was above 0, is stale: run from there, it
    calls neither hook nor the worker. *)
Theorem zero_latest_height_is_no_bypass :
  forall st,
    let result := enqueueBlocks env (@nil (Item IBlock)) (Some 0) st in
    (exists evs,
        history (snd result) = history st ++ evs /\
        fetchCalls evs = [] /\ putCalls evs = []) /\
    (fst result = Ret tt ->
     _latestBufferedHeight (snd result) = 0 /\
     forall t,
       bufferedHeight t > 0 ->
       exists evs,
         snd (processBlock env t (snd result)) = addEvents (snd result) evs /\
         forallb (fun ev => negb (isProcessingCall ev)) evs = true).
Proof.
  intros st result. split.
  - subst result. rewrite enqueueBlocks_run. cbn [everyNumber]. cbv zeta.
    rewrite bypass_zero.
    destruct (getNextWorkerIndex_calls
                (addEvents st [logger_info_call (enqueueing [])]))
      as (evs & Hsnd & _ & Hfetch & Hput).
    destruct (getNextWorkerIndex env _) as [[idx|e|c] st2]; cbn [snd] in Hsnd;
      subst st2.
    + cbn [Array_map]. unfold ret. rewrite set_latestBufferedHeight_run.
      cbn [snd history addEvents with_latestBufferedHeight].
      eexists. rewrite <- !app_assoc. split; [reflexivity|].
      rewrite !fetchCalls_app, !putCalls_app, Hfetch, Hput. split; reflexivity.
    + cbn [snd history addEvents]. eexists. rewrite <- app_assoc.
      split; [reflexivity|].
      rewrite !fetchCalls_app, !putCalls_app, Hfetch, Hput. split; reflexivity.
    + cbn [snd history addEvents]. eexists. rewrite <- app_assoc.
      split; [reflexivity|].
      rewrite !fetchCalls_app, !putCalls_app, Hfetch, Hput. split; reflexivity.
  - intros Hret.
    assert (Hrun : enqueueBlocks env (@nil (Item IBlock)) (Some 0) st
                   = (Ret tt, snd result)).
    { subst result. destruct (enqueueBlocks env _ _ st) as [r s]. cbn in *.
      now subst r. }
    destruct (enqueueBlocks_Ret _ _ _ _ Hrun)
      as (ns & idx & evsA & _ & _ & _ & _ & _ & Hst').
    assert (Hcounter : _latestBufferedHeight (snd result) = 0)
      by (rewrite Hst'; reflexivity).
    split; [exact Hcounter|].
    intros t Hfence. apply stale_task_run. now rewrite Hcounter.
Qed.

(** ** The least loaded workers *)

Lemma Math_min_empty (values : list Z) : Math.min values = None -> values = [].
Proof.
  destruct values as [|v rest]; [reflexivity|]. cbn.
  destruct (Math.min rest); discriminate.
Qed.

Lemma Math_min_least (values : list Z) (m : Z) :
  Math.min values = Some m ->
  In m values /\ forall v, In v values -> m <= v.
Proof.
  revert m; induction values as [|v rest IH]; intros m H; cbn in H; [discriminate|].
  destruct (Math.min rest) as [m'|] eqn:Hrest.
  - inversion H; subst m; clear H. destruct (IH m' eq_refl) as [Hin Hle]. split.
    + destruct (Z.min_spec v m') as [[_ ->]|[_ ->]]; [now left|now right].
    + intros x [->|Hx]; [apply Z.le_min_l|].
      specialize (Hle x Hx). pose proof (Z.le_min_r v m'). lia.
  - inversion H; subst m; clear H. apply Math_min_empty in Hrest. subst rest.
    split; [now left|]. intros x [->|[]]. lia.
Qed.

Lemma Math_min_some (values : list Z) :
  values <> [] -> exists m, Math.min values = Some m.
Proof.
  destruct values as [|v rest]; [intros H; now elim H|]. intros _. cbn.
  destruct (Math.min rest); eexists; reflexivity.
Qed.

Lemma lowestOf_spec (statuses : list WorkerStatusResponse) (m : Z) :
  Math.min (map toFetchBlocks statuses) = Some m ->
  forall s, In s (lowestOf statuses) <-> In s statuses /\ toFetchBlocks s = m.
Proof.
  intros Hm s. unfold lowestOf. rewrite Hm, filter_In, Z.eqb_eq. reflexivity.
Qed.

Lemma lowestOf_nonempty (statuses : list WorkerStatusResponse) :
  statuses <> [] -> lowestOf statuses <> [].
Proof.
  intros Hne.
  destruct (Math_min_some (map toFetchBlocks statuses)) as [m Hm].
  { destruct statuses; [now elim Hne|discriminate]. }
  destruct (Math_min_least _ _ Hm) as [Hin _].
  apply in_map_iff in Hin. destruct Hin as (s & Hs & Hin).
  intros Hemp. assert (H : In s (lowestOf statuses)).
  { apply (lowestOf_spec statuses m Hm). now split. }
  rewrite Hemp in H. destruct H.
Qed.

(** ** Drawing a position *)

(** Rounding to 53 bits moves an integer by half a unit of its last bit at
    most, and that unit is 52 bits below its first bit. *)
Lemma round53_error (a : Z) :
  0 <= a -> 0 <= round53 a /\ (round53 a - a) * 2 ^ 53 <= a.
Proof.
  intros Ha. unfold round53.
  destruct (Z.log2 a - 52 <=? 0) eqn:Hd; [lia|].
  apply Z.leb_gt in Hd.
  assert (Hpos : 0 < a).
  { destruct (Z.eq_dec a 0) as [->|]; [cbn in Hd; lia|lia]. }
  set (d := Z.log2 a - 52) in *.
  assert (Hunit : 2 ^ d = 2 * 2 ^ (d - 1)).
  { replace d with (1 + (d - 1)) at 1 by lia. rewrite Z.pow_add_r by lia. reflexivity. }
  assert (Hhalf : 0 < 2 ^ (d - 1)) by (apply Z.pow_pos_nonneg; lia).
  assert (Hfirst : 2 ^ d * 2 ^ 52 <= a).
  { rewrite <- Z.pow_add_r by lia. replace (d + 52) with (Z.log2 a) by lia.
    apply Z.log2_spec. exact Hpos. }
  pose proof (Z.div_mod a (2 ^ d) ltac:(lia)) as Hdiv.
  pose proof (Z.mod_pos_bound a (2 ^ d) ltac:(lia)) as Hrest.
  assert (Hq : 0 <= a / 2 ^ d) by (apply Z.div_pos; lia).
  set (q := a / 2 ^ d) in *. set (rest := a mod 2 ^ d) in *.
  set (u := 2 ^ d) in *. set (v := 2 ^ (d - 1)) in *.
  change (2 ^ 53) with (2 * 2 ^ 52). change (2 ^ 52) with 4503599627370496 in *.
  destruct ((u <? 2 * rest) || ((u =? 2 * rest) && Z.odd q)) eqn:Hup.
  - assert (Hge : u <= 2 * rest).
    { apply orb_true_iff in Hup. destruct Hup as [H|H].
      - apply Z.ltb_lt in H. lia.
      - apply andb_true_iff in H. destruct H as [H _]. apply Z.eqb_eq in H. lia. }
    split; [nia|]. nia.
  - split; [nia|]. nia.
Qed.

(** What is drawn is a position of the array: the product of a double below
    1 and a length is not rounded up to the length. *)
Lemma draw_in_range (r : UnitInterval) (n : Z) :
  0 < n -> 0 <= Math.floor (times r n) < n.
Proof.
  intros Hn. unfold Math.floor, times; cbn [numerator scale].
  destruct (significand_range r) as [Hm0 Hm1].
  destruct (binaryScale_range r) as [Hs0 _].
  assert (Hscale : 2 ^ 53 <= 2 ^ binaryScale r) by (apply Z.pow_le_mono_r; lia).
  destruct (round53_error (significand r * n) ltac:(nia)) as [Hr0 Herr].
  set (rounded := round53 (significand r * n)) in *.
  set (m := significand r) in *. set (p := 2 ^ binaryScale r) in *.
  change (2 ^ 53) with 9007199254740992 in *.
  split.
  - apply Z.div_pos; lia.
  - apply Z.div_lt_upper_bound; [lia|]. nia.
Qed.

(** ** The product of doubles *)

Lemma iter_pos_nat {A : Type} (f : A -> A) (p : positive) (x : A) :
  iter_pos f p x = Nat.iter (Pos.to_nat p) f x.
Proof.
  revert x. induction p as [p IH|p IH|]; intros x; cbn [iter_pos].
  - rewrite !IH, Pos2Nat.inj_xI, <- Nat.iter_add, <- Nat.iter_succ_r.
    f_equal. lia.
  - rewrite !IH, Pos2Nat.inj_xO, <- Nat.iter_add. f_equal. lia.
  - reflexivity.
Qed.

Lemma shr_1_spec (m : Z) (r s : bool) :
  0 <= m ->
  shr_1 {| shr_m := m; shr_r := r; shr_s := s |}
  = {| shr_m := m / 2; shr_r := Z.odd m; shr_s := r || s |}.
Proof.
  intros Hm. destruct m as [|[p|p|]|p]; try lia; cbn [shr_1 Z.odd].
  - reflexivity.
  - f_equal. rewrite Pos2Z.inj_xI.
    apply Z.div_unique with (r := 1); lia.
  - f_equal. rewrite Pos2Z.inj_xO.
    apply Z.div_unique with (r := 0); lia.
  - reflexivity.
Qed.

Lemma shr_iter (a : Z) (j : nat) :
  0 <= a ->
  Nat.iter j shr_1 {| shr_m := a; shr_r := false; shr_s := false |}
  = shifted a (Z.of_nat j).
Proof.
  intros Ha. induction j as [|j IH].
  - cbn [Nat.iter]. unfold shifted. cbn [Z.of_nat]. rewrite Z.pow_0_r, Z.div_1_r, Z.mod_1_r.
    reflexivity.
  - rewrite Nat.iter_succ, IH. unfold shifted.
    assert (Hu : 0 < 2 ^ Z.of_nat j) by (apply Z.pow_pos_nonneg; lia).
    rewrite shr_1_spec by (apply Z.div_pos; lia).
    rewrite Nat2Z.inj_succ, Z.pow_succ_r by lia.
    rewrite (Z.mul_comm 2 (2 ^ Z.of_nat j)).
    rewrite Z.rem_mul_r by lia. rewrite Z.div_div by lia.
    rewrite Zmod_odd.
    pose proof (Z.mod_pos_bound a (2 ^ Z.of_nat j) Hu) as Hrest.
    set (u := 2 ^ Z.of_nat j) in *. set (rest := a mod u) in *.
    destruct (Z.odd (a / u)); f_equal.
    + symmetry. apply Z.leb_le. lia.
    + destruct (u <=? 2 * rest) eqn:H1; destruct (rest =? 0) eqn:H2;
        destruct (2 * rest =? u) eqn:H3; cbn [negb andb orb];
        repeat match goal with
               | H : (_ <=? _) = true |- _ => apply Z.leb_le in H
               | H : (_ <=? _) = false |- _ => apply Z.leb_gt in H
               | H : (_ =? _) = true |- _ => apply Z.eqb_eq in H
               | H : (_ =? _) = false |- _ => apply Z.eqb_neq in H
               end; try lia;
        symmetry; rewrite ?andb_true_iff, ?andb_false_iff, ?negb_true_iff, ?negb_false_iff,
          ?Z.eqb_eq, ?Z.eqb_neq; lia.
    + symmetry. apply Z.leb_gt. lia.
    + destruct (u <=? 2 * rest) eqn:H1; destruct (rest =? 0) eqn:H2;
        destruct (2 * rest =? u) eqn:H3; cbn [negb andb orb];
        repeat match goal with
               | H : (_ <=? _) = true |- _ => apply Z.leb_le in H
               | H : (_ <=? _) = false |- _ => apply Z.leb_gt in H
               | H : (_ =? _) = true |- _ => apply Z.eqb_eq in H
               | H : (_ =? _) = false |- _ => apply Z.eqb_neq in H
               end; try lia;
        symmetry; rewrite ?andb_true_iff, ?andb_false_iff, ?negb_true_iff, ?negb_false_iff,
          ?Z.eqb_eq, ?Z.eqb_neq; lia.
Qed.

Lemma shr_spec (a e k : Z) :
  0 <= a ->
  shr {| shr_m := a; shr_r := false; shr_s := false |} e k
  = if 0 <? k then (shifted a k, e + k)
    else ({| shr_m := a; shr_r := false; shr_s := false |}, e).
Proof.
  intros Ha. destruct k as [|p|p]; cbn [shr Z.ltb Z.compare]; try reflexivity.
  now rewrite iter_pos_nat, shr_iter, positive_nat_Z.
Qed.

Lemma round_shifted (a j : Z) :
  0 <= a -> 0 < j ->
  round_nearest_even (shr_m (shifted a j)) (loc_of_shr_record (shifted a j))
  = if (2 ^ j <? 2 * (a mod 2 ^ j)) || ((2 ^ j =? 2 * (a mod 2 ^ j)) && Z.odd (a / 2 ^ j))
    then a / 2 ^ j + 1 else a / 2 ^ j.
Proof.
  intros Ha Hj. unfold shifted. cbn [shr_m loc_of_shr_record].
  assert (Hu : 0 < 2 ^ j) by (apply Z.pow_pos_nonneg; lia).
  pose proof (Z.mod_pos_bound a (2 ^ j) Hu) as Hrest.
  set (u := 2 ^ j) in *. set (rest := a mod u) in *. set (q := a / u).
  pose proof (Z.negb_odd q) as Heven.
  destruct (u <=? 2 * rest) eqn:H1; destruct (rest =? 0) eqn:H2;
    destruct (2 * rest =? u) eqn:H3; destruct (u <? 2 * rest) eqn:H4;
    destruct (u =? 2 * rest) eqn:H5; destruct (Z.odd q);
    cbn [negb andb orb round_nearest_even]; rewrite <- ?Heven; cbn [negb];
    try reflexivity;
    repeat match goal with
           | H : (_ <=? _) = true |- _ => apply Z.leb_le in H
           | H : (_ <=? _) = false |- _ => apply Z.leb_gt in H
           | H : (_ <? _) = true |- _ => apply Z.ltb_lt in H
           | H : (_ <? _) = false |- _ => apply Z.ltb_ge in H
           | H : (_ =? _) = true |- _ => apply Z.eqb_eq in H
           | H : (_ =? _) = false |- _ => apply Z.eqb_neq in H
           end; lia.
Qed.

Lemma digits2_pos_size (p : positive) : digits2_pos p = Pos.size p.
Proof. induction p as [p IH|p IH|]; cbn; now rewrite ?IH. Qed.

Lemma Zdigits2_log2 (a : Z) : 0 < a -> Zdigits2 a = Z.log2 a + 1.
Proof.
  intros Ha. destruct a as [|p|p]; try lia. cbn [Zdigits2].
  rewrite digits2_pos_size. destruct p as [p|p|]; cbn [Pos.size Z.log2];
    rewrite ?Pos2Z.inj_succ; lia.
Qed.

Lemma shiftl_scaled (q d s : Z) :
  0 <= d -> 0 <= s -> Z.shiftl q (d - s) = q * 2 ^ d / 2 ^ s.
Proof.
  intros Hd Hs. destruct (Z.le_gt_cases s d) as [Hle|Hgt].
  - rewrite Z.shiftl_mul_pow2 by lia.
    replace d with ((d - s) + s) at 2 by lia. rewrite Z.pow_add_r by lia.
    rewrite Z.mul_assoc, Z.div_mul; [reflexivity|].
    apply Z.pow_nonzero; lia.
  - rewrite Z.shiftl_div_pow2 by lia.
    replace (- (d - s)) with (s - d) by lia.
    replace s with ((s - d) + d) at 2 by lia. rewrite Z.pow_add_r by lia.
    rewrite Z.div_mul_cancel_r; [reflexivity| |]; apply Z.pow_nonzero; lia.
Qed.

Lemma binary_round_aux_floor (a s : Z) :
  0 < a < 2 ^ 106 -> 53 <= s <= 1074 ->
  binary64_floor (binary_round_aux 53 1024 false a (- s) loc_Exact)
  = Some (round53 a / 2 ^ s).
Proof.
  intros [Ha0 Ha1] [Hs0 Hs1].
  assert (HL : 0 <= Z.log2 a <= 105).
  { split; [apply Z.log2_nonneg|].
    assert (Z.log2 a < 106); [|lia]. apply Z.log2_lt_pow2; lia. }
  unfold binary_round_aux, shr_fexp.
  rewrite (Zdigits2_log2 a Ha0). cbn [shr_record_of_loc].
  rewrite shr_spec by lia. unfold fexp, emin.
  unfold round53.
  destruct (Z.log2 a - 52 <=? 0) eqn:Hd.
  - apply Z.leb_le in Hd.
    replace (0 <? Z.max (Z.log2 a + 1 + - s - 53) (3 - 1024 - 53) - - s) with false
      by (symmetry; apply Z.ltb_ge; lia).
    cbn [shr_m loc_of_shr_record round_nearest_even].
    rewrite (Zdigits2_log2 a Ha0). cbn [shr_record_of_loc].
    rewrite shr_spec by lia.
    replace (0 <? Z.max (Z.log2 a + 1 + - s - 53) (3 - 1024 - 53) - - s) with false
      by (symmetry; apply Z.ltb_ge; lia).
    cbn [shr_m]. destruct a as [|p|p]; try lia.
    replace (- s <=? 1024 - 53) with true by (symmetry; apply Z.leb_le; lia).
    cbn [binary64_floor]. f_equal. rewrite Z.shiftl_div_pow2 by lia.
    now rewrite Z.opp_involutive.
  - apply Z.leb_gt in Hd.
    replace (Z.max (Z.log2 a + 1 + - s - 53) (3 - 1024 - 53) - - s)
      with (Z.log2 a - 52) by lia.
    replace (0 <? Z.log2 a - 52) with true by (symmetry; apply Z.ltb_lt; lia).
    set (d := Z.log2 a - 52) in *.
    rewrite round_shifted by lia.
    assert (Hu : 0 < 2 ^ d) by (apply Z.pow_pos_nonneg; lia).
    assert (Hq : 2 ^ 52 <= a / 2 ^ d < 2 ^ 53).
    { destruct (Z.log2_spec a Ha0) as [Hlo Hhi].
      replace (Z.log2 a) with (52 + d) in Hlo by lia.
      replace (Z.succ (Z.log2 a)) with (53 + d) in Hhi by lia.
      rewrite Z.pow_add_r in Hlo, Hhi by lia. split.
      - apply Z.div_le_lower_bound; lia.
      - apply Z.div_lt_upper_bound; lia. }
    set (q := a / 2 ^ d) in *. set (rest := a mod 2 ^ d) in *.
    set (up := (2 ^ d <? 2 * rest) || ((2 ^ d =? 2 * rest) && Z.odd q)).
    set (q' := if up then q + 1 else q).
    assert (Hq' : 2 ^ 52 <= q' <= 2 ^ 53) by (subst q'; destruct up; lia).
    replace (if up then (q + 1) * 2 ^ d else q * 2 ^ d) with (q' * 2 ^ d)
      by (subst q'; now destruct up).
    rewrite (Zdigits2_log2 q') by lia. cbn [shr_record_of_loc].
    rewrite shr_spec by lia.
    destruct (Z.eq_dec q' (2 ^ 53)) as [Htop|Hbelow].
    + rewrite Htop. change (Z.log2 (2 ^ 53)) with 53.
      replace (Z.max (53 + 1 + (- s + d) - 53) (3 - 1024 - 53) - (- s + d)) with 1 by lia.
      cbn [Z.ltb Z.compare]. unfold shifted. cbn [shr_m].
      change (2 ^ 53 / 2 ^ 1) with (Z.pos (2 ^ 52)).
      cbv beta iota.
      replace (- s + d + 1 <=? 1024 - 53) with true by (symmetry; apply Z.leb_le; lia).
      cbn [binary64_floor]. f_equal.
      replace (- s + d + 1) with ((d + 1) - s) by lia.
      rewrite shiftl_scaled by lia. f_equal.
      rewrite Z.pow_add_r by lia. change (2 ^ 1) with 2.
      change (Z.pos (2 ^ 52)) with (2 ^ 52). change (2 ^ 53) with (2 ^ 52 * 2). lia.
    + assert (Hlog : Z.log2 q' = 52).
      { apply Z.log2_unique; [lia|]. change (2 ^ Z.succ 52) with (2 ^ 53). lia. }
      rewrite Hlog.
      replace (0 <? Z.max (52 + 1 + (- s + d) - 53) (3 - 1024 - 53) - (- s + d)) with false
        by (symmetry; apply Z.ltb_ge; lia).
      cbn [shr_m]. destruct q' as [|p|p] eqn:Hp; try lia.
      replace (- s + d <=? 1024 - 53) with true by (symmetry; apply Z.leb_le; lia).
      cbn [binary64_floor]. f_equal.
      replace (- s + d) with (d - s) by lia.
      now rewrite shiftl_scaled by lia.
Qed.

(** [times] and [Math.floor] are the product and the floor of IEEE 754, for
    every result of [Math.random()] and every length that a double holds. *)
Lemma times_is_binary64_times (r : UnitInterval) (n : Z) :
  0 <= n < 2 ^ 53 ->
  binary64_floor (binary64_times r n) = Some (Math.floor (times r n)).
Proof.
  intros [Hn0 Hn1]. unfold binary64_times, times, Math.floor; cbn [numerator scale].
  destruct (significand_range r) as [Hm0 Hm1].
  pose proof (binaryScale_range r) as Hs.
  destruct (significand r) as [|pm|pm] eqn:Hm; try lia.
  - cbn [binary64 Z.mul]. destruct n; reflexivity.
  - destruct n as [|pn|pn]; try lia.
    + rewrite Z.mul_0_r. reflexivity.
    + cbn [binary64 SFmul xorb]. rewrite Z.add_0_r.
      change (Z.pos (pm * pn)) with (Z.pos pm * Z.pos pn).
      apply binary_round_aux_floor; [|exact Hs].
      change (2 ^ 106) with (2 ^ 53 * 2 ^ 53). nia.
Qed.

Lemma settleAll_Fulfilled {A : Type} (values : list A) :
  settleAll (map Fulfilled values) = Fulfilled values.
Proof. induction values as [|v rest IH]; cbn; [reflexivity|]. now rewrite IH. Qed.

Lemma Array_get_nth {A : Type} (a : list A) (i : Z) (x : A) :
  Array_get a i = Some x <-> 0 <= i /\ nth_error a (Z.to_nat i) = Some x.
Proof.
  unfold Array_get. destruct (i <? 0) eqn:Hi.
  - apply Z.ltb_lt in Hi. split; [discriminate|]. intros [H _]. lia.
  - apply Z.ltb_ge in Hi. split; [now split|now intros [_ H]].
Qed.

Lemma Array_get_in_range {A : Type} (a : list A) (i : Z) :
  0 <= i < Array_length a -> exists x, Array_get a i = Some x.
Proof.
  intros [Hlo Hhi]. unfold Array_length in Hhi.
  destruct (nth_error a (Z.to_nat i)) as [x|] eqn:Hnth.
  - exists x. apply Array_get_nth. now split.
  - apply nth_error_None in Hnth. lia.
Qed.

Lemma fulfilled_statuses_length (ws : list Worker) (p : Worker -> Settled WorkerStatusResponse)
    (statuses : list WorkerStatusResponse) :
  map p ws = map Fulfilled statuses -> List.length statuses = List.length ws.
Proof.
  intros H. apply (f_equal (@List.length _)) in H. rewrite !length_map in H.
  now symmetry.
Qed.

Lemma fulfilled_status_nth (ws : list Worker) (p : Worker -> Settled WorkerStatusResponse)
    (statuses : list WorkerStatusResponse) (i : nat) (s : WorkerStatusResponse) :
  map p ws = map Fulfilled statuses ->
  nth_error statuses i = Some s ->
  exists w, nth_error ws i = Some w /\ p w = Fulfilled s.
Proof.
  intros H Hs. apply (f_equal (fun l => nth_error l i)) in H.
  rewrite !nth_error_map, Hs in H. cbn in H.
  destruct (nth_error ws i) as [w|]; [|discriminate].
  exists w. split; [reflexivity|]. cbn in H. congruence.
Qed.

(** C9. [initAutoQueue] called with a number of workers [w] of at least 1
    makes the queue with capacity [w * batchSize * 2] and concurrency 1; with
    a number of workers that is missing, or is 0 or less, it throws the
    assertion error. *)
Theorem queue_geometry :
  forall (w batchSize : Z) (timeout : option Z) (name : option string),
    (1 <= w ->
     exists q,
       initAutoQueue (Some w) batchSize timeout name = Ret q /\
       capacity q = w * batchSize * 2 /\
       concurrency q = 1) /\
    (w <= 0 ->
     initAutoQueue (Some w) batchSize timeout name
     = Throw (AssertionError "Number of workers must be greater than 0")) /\
    initAutoQueue None batchSize timeout name
    = Throw (AssertionError "Number of workers must be greater than 0").
Proof.
  intros w batchSize timeout name. split; [|split; [|reflexivity]].
  - intros Hw. eexists. unfold initAutoQueue.
    replace (w =? 0) with false by (symmetry; apply Z.eqb_neq; lia).
    replace (w >? 0) with true by (symmetry; apply Z.gtb_gt; lia).
    cbn [negb andb]. repeat split.
  - intros Hw. unfold initAutoQueue.
    destruct (w =? 0) eqn:H0; [reflexivity|].
    replace (w >? 0) with false; [reflexivity|].
    symmetry. rewrite Z.gtb_ltb. apply Z.ltb_ge. exact Hw.
Qed.

End Properties.

(** * The properties at work *)

(** Block 120 is assigned at counter 100, the counter is set back to 50, and
    the task of block 120 then runs: it is discarded. *)
Lemma stale_task_is_discarded_witness :
  bufferedHeight block120 > _latestBufferedHeight afterReset /\
  processBlock quietEnv block120 afterReset
  = (Ret tt,
     addEvents afterReset
       [logger_debug_call "Queue was reset for new DS, discarding fetched blocks"]).
Proof.
  split; [reflexivity|].
  apply (proj2 (stale_task_is_discarded quietEnv block120 afterReset eq_refl) 120).
  reflexivity.
Defined.

(** Four workers are shut down: each is terminated once, and no block is
    assigned afterwards. *)
Lemma shutdown_is_final_witness :
  NoDup (workers fourWorkers) /\
  isShutdown afterShutdown = true /\
  (forall w, In w (workers fourWorkers) ->
             count_occ Nat.eq_dec
               (terminateCalls (Header := Z)
                  [queue_abort_call; terminate_call 0%nat; terminate_call 1%nat;
                   terminate_call 2%nat; terminate_call 3%nat]) w = 1%nat) /\
  (forall (actions : list (Action unit)) h idx,
      enqueueBlock quietEnv h idx (run quietEnv afterShutdown actions)
      = (Ret tt, run quietEnv afterShutdown actions)).
Proof.
  assert (Hnd : NoDup (workers fourWorkers)).
  { cbn. repeat constructor; cbn; intuition discriminate. }
  destruct (shutdown_is_final (IBlock := unit) quietEnv fourWorkers)
    as (Hflag & _ & (evs & Hhist & _ & _ & Honce) & Hlater).
  split; [exact Hnd|]. split; [exact Hflag|]. split; [|exact Hlater].
  cbn in Hhist. subst evs. exact (Honce Hnd).
Defined.

(** C3, where the code goes wrong.  The worker rejects block 120 with
    [undefined], which is neither a task-flushed nor a block-unavailable
    error.  The [catch] block reads [e.handler] for the message of the
    failure, which is a type error: the task throws it, to the queue, and no
    failure was logged and the process was not asked to end. *)
Lemma undefined_failure_is_not_reported :
  Fails undefinedEnv block120 fourWorkers undefined
    [preProcessBlock_call 120;
     monitorWrite_call "Processing from worker #1";
     processBlock_call 1%nat 120] /\
  swallowed undefinedEnv undefined = false /\
  processBlock undefinedEnv block120 fourWorkers
  = (Throw (TypeError "Cannot read properties of undefined (reading 'handler')"),
     addEvents fourWorkers
       [preProcessBlock_call 120;
        monitorWrite_call "Processing from worker #1";
        processBlock_call 1%nat 120]) /\
  errorsLogged (history (snd (processBlock undefinedEnv block120 fourWorkers))) = [] /\
  exitCalls (history (snd (processBlock undefinedEnv block120 fourWorkers))) = [].
Proof.
  split; [|repeat split].
  apply (WorkerFails Z undefinedEnv block120 fourWorkers 120 undefined); reflexivity.
Qed.

(** C4, where the code goes wrong.  Of two workers the one of pool index 0
    answers with thread id 2 and a backlog of 5, the one of pool index 1 with
    thread id 1 and a backlog of 0.  The least backlog is 0, that of pool
    index 1; the index returned is 0, the thread id 1 less one, and pool
    index 0 is the worker with the backlog of 5. *)
Lemma chosen_index_is_not_least_loaded :
  getNextWorkerIndex swappedEnv twoWorkers
  = (Ret 0,
     addEvents twoWorkers
       [getStatus_call 0%nat; getStatus_call 1%nat; Math_random_call]) /\
  Array_get (workers twoWorkers) 0 = Some 0%nat /\
  getStatus_answer swappedEnv 0%nat [getStatus_call 0%nat; getStatus_call 1%nat]
  = Fulfilled (mkStatus 2 5) /\
  getStatus_answer swappedEnv 1%nat [getStatus_call 0%nat; getStatus_call 1%nat]
  = Fulfilled (mkStatus 1 0) /\
  Math.min [5; 0] = Some 0 /\
  toFetchBlocks (mkStatus 2 5) <> 0.
Proof. repeat split; discriminate. Qed.

(** Blocks 5 and 6 are enqueued with four workers. *)
Lemma batch_goes_to_one_worker_witness :
  twoHeights <> [] /\
  isShutdown fourWorkers = false /\
  exists ns idx evs,
    twoHeights = map Number ns /\
    history (snd (enqueueBlocks quietEnv twoHeights None fourWorkers))
    = history fourWorkers ++ evs /\
    fst (getNextWorkerIndex quietEnv
           (addEvents fourWorkers [logger_info_call (enqueueing ns)])) = Ret idx /\
    statusCalls evs = workers fourWorkers /\
    randomCalls evs = 1%nat /\
    (isShutdown fourWorkers = false ->
     exists w,
       Array_get (workers fourWorkers) idx = Some w /\
       fetchCalls evs = map (fun h => (w, h)) ns /\
       putCalls evs
       = map (fun h => mkTask h idx w (_latestBufferedHeight fourWorkers)) ns).
Proof.
  split; [discriminate|]. split; [reflexivity|].
  apply (batch_goes_to_one_worker quietEnv twoHeights None fourWorkers);
    [discriminate|reflexivity].
Defined.

(** The counter, at 100 before, after blocks 5 and 6 were enqueued without a
    latest height, after they were enqueued with the latest height 9, and
    after nothing was enqueued. *)
Lemma counter_after_enqueueBlocks_witness :
  (fst (enqueueBlocks quietEnv twoHeights None fourWorkers) = Ret tt /\
   twoHeights = [Number 5] ++ [Number 6] /\
   _latestBufferedHeight (snd (enqueueBlocks quietEnv twoHeights None fourWorkers)) = 6) /\
  (fst (enqueueBlocks quietEnv twoHeights (Some 9) fourWorkers) = Ret tt /\
   _latestBufferedHeight (snd (enqueueBlocks quietEnv twoHeights (Some 9) fourWorkers))
   = 9) /\
  (fst (enqueueBlocks quietEnv noHeights None fourWorkers) = Ret tt /\
   _latestBufferedHeight (snd (enqueueBlocks quietEnv noHeights None fourWorkers))
   = 100).
Proof.
  split; [|split].
  - split; [reflexivity|]. split; [reflexivity|].
    exact (proj1 (counter_after_enqueueBlocks quietEnv twoHeights None fourWorkers
                    _ eq_refl) [Number 5] 6 eq_refl).
  - split; [reflexivity|].
    exact (counter_after_enqueueBlocks quietEnv twoHeights (Some 9) fourWorkers
             _ eq_refl).
  - split; [reflexivity|].
    exact (proj2 (counter_after_enqueueBlocks quietEnv noHeights None fourWorkers
                    _ eq_refl) eq_refl).
Defined.

(** A batch of a height and a block. *)
Lemma blocks_are_refused_witness :
  (exists b, In (Block b) heightAndBlock) /\
  enqueueBlocks quietEnv heightAndBlock (Some 42) fourWorkers
  = (Throw (AssertionError
              "Worker block dispatcher only supports enqueuing numbers, not blocks."),
     fourWorkers).
Proof.
  assert (H : exists b, In (Block b) heightAndBlock).
  { exists tt. right. left. reflexivity. }
  split; [exact H|].
  exact (blocks_are_refused quietEnv heightAndBlock (Some 42) fourWorkers H).
Defined.

(** Four workers and batches of ten; no worker. *)
Lemma queue_geometry_witness :
  (1 <= 4 /\
   exists q,
     initAutoQueue (Some 4) 10 (Some 900) (Some "Worker") = Ret q /\
     capacity q = 80 /\ concurrency q = 1) /\
  (0 <= 0 /\
   initAutoQueue (Some 0) 10 (Some 900) (Some "Worker")
   = Throw (AssertionError "Number of workers must be greater than 0")).
Proof.
  split; split; try discriminate.
  - exact (proj1 (queue_geometry 4 10 (Some 900) (Some "Worker"))
             ltac:(discriminate)).
  - exact (proj1 (proj2 (queue_geometry 0 10 (Some 900) (Some "Worker")))
             ltac:(discriminate)).
Defined.

(** Nothing is enqueued and the latest height is 0, with four workers at
    counter 100: the counter falls to 0, and the task of block 120, assigned
    at counter 100, is stale. *)
Lemma zero_latest_height_is_no_bypass_witness :
  fst (enqueueBlocks quietEnv noHeights (Some 0) fourWorkers) = Ret tt /\
  bufferedHeight block120 > 0 /\
  _latestBufferedHeight afterZero = 0 /\
  (exists evs,
      snd (processBlock quietEnv block120 afterZero) = addEvents afterZero evs /\
      forallb (fun ev => negb (isProcessingCall ev)) evs = true).
Proof.
  destruct (zero_latest_height_is_no_bypass (IBlock := unit) quietEnv fourWorkers)
    as [_ Hreturned].
  destruct (Hreturned eq_refl) as [Hcounter Hstale].
  split; [reflexivity|]. split; [reflexivity|]. split; [exact Hcounter|].
  exact (Hstale block120 eq_refl).
Defined.

(** C6, where the code goes wrong.  Nothing is enqueued and the latest
    height handed in is 0: the call returns, every worker was asked for its
    status, and no fetch was started and no task put on the queue, so that
    no block is assigned for height 0; the counter is set to 0. *)
Lemma empty_batch_with_height_zero :
  enqueueBlocks quietEnv noHeights (Some 0) fourWorkers
  = (Ret tt,
     {| workers := [0%nat; 1%nat; 2%nat; 3%nat];
        isShutdown := false;
        _latestBufferedHeight := 0;
        history :=
          [logger_info_call "Enqueueing blocks undefined...undefined, total 0 blocks";
           getStatus_call 0%nat; getStatus_call 1%nat; getStatus_call 2%nat;
           getStatus_call 3%nat; Math_random_call;
           eventEmitter_emit_call BlockQueueSize 0] |}).
Proof. reflexivity. Qed.

(** With a draw of one half the other of the two least loaded workers is
    chosen. *)
Example draw_of_one_half : fst (getNextWorkerIndex halfEnv fourWorkers) = Ret 2.
Proof. reflexivity. Qed.

(** A rejected [put]: a flushed task is let pass, any other failure is
    thrown on. *)
Example put_catch_flushed : put_catch quietEnv taskFlushed = Ret tt.
Proof. reflexivity. Qed.

Example put_catch_other : put_catch quietEnv handlerFailure = Throw handlerFailure.
Proof. reflexivity. Qed.

(** Nothing is enqueued and the latest height is 42: block 42 is assigned. *)
Example empty_batch_with_height_42 :
  putCalls (history (snd (enqueueBlocks quietEnv noHeights (Some 42) fourWorkers)))
  = [mkTask 42 1 1%nat 100].
Proof. reflexivity. Qed.

(** * More of the class *)

Section MoreProperties.

Context {Header IBlock : Type}.
Variable env : Env Header.
Implicit Types (st : State Header) (evs : list (Event Header)) (t : Task).

(** ** The processing task, all of it *)

(** The [try] block returns, or it meets one of the failures of [Fails]. *)
Lemma processBlock_try_outcomes t st :
  (exists evs,
      processBlock_try env t st = (Ret tt, addEvents st evs) /\
      statusCalls evs = [] /\ terminateCalls evs = [] /\
      fetchCalls evs = [] /\ putCalls evs = []) \/
  (exists e evs,
      Fails env t st e evs /\
      processBlock_try env t st = (Throw e, addEvents st evs) /\
      statusCalls evs = [] /\ terminateCalls evs = [] /\
      fetchCalls evs = [] /\ putCalls evs = []).
Proof.
  destruct (processBlock_try_cases env t st)
    as [e Hf|h Hf Hs|h e Hf Hle Hp|h e Hf Hle Hp Hw|h r settled Hf Hle Hp Hw Hq].
  - right. exists e, []. rewrite addEvents_nil.
    split; [now apply FetchFails|]. repeat split.
  - left. eexists. repeat split.
  - right. eexists e, _.
    split; [now apply (PreProcessFails _ env t st h e)|]. repeat split.
  - right. eexists e, _.
    split; [now apply (WorkerFails _ env t st h e)|]. repeat split.
  - destruct settled as [[]|e].
    + left. eexists. repeat split.
    + right. eexists e, _.
      split; [now apply (PostProcessFails _ env t st h r e)|]. repeat split.
Qed.

(** X1. A processing task ends in one of three ways.  It returns; or it asks
    the process to end with status 1; or it throws a type error, and this
    only when a promise it awaited was rejected with [undefined] or with
    [null] and that is neither a task-flushed nor a block-unavailable error.
    It writes no field of the dispatcher, and among its calls there is no
    status poll, no [terminate], no fetch and no [put]. *)
Theorem task_ends_in_three_ways :
  forall t st,
  exists evs,
    snd (processBlock env t st) = addEvents st evs /\
    (fst (processBlock env t st) = Ret tt \/
     fst (processBlock env t st) = Exited 1 \/
     exists e evs0 msg,
       Fails env t st e evs0 /\
       (e = undefined \/ e = null) /\
       swallowed env e = false /\
       fst (processBlock env t st) = Throw (TypeError msg)) /\
    statusCalls evs = [] /\ terminateCalls evs = [] /\
    fetchCalls evs = [] /\ putCalls evs = [].
Proof.
  intros t st. unfold processBlock, tryCatch.
  destruct (processBlock_try_outcomes t st)
    as [(evs & Hrun & H1 & H2 & H3 & H4)|(e & evs & Hfails & Hrun & H1 & H2 & H3 & H4)];
    rewrite Hrun.
  - exists evs. cbn [fst snd]. split; [reflexivity|]. split; [now left|].
    repeat split; assumption.
  - destruct (swallowed env e) eqn:Hsw.
    + rewrite processBlock_catch_swallowed by assumption.
      exists evs. cbn [fst snd]. split; [reflexivity|]. split; [now left|].
      repeat split; assumption.
    + destruct e as [| |err].
      * rewrite processBlock_catch_undefined by assumption.
        exists evs. cbn [fst snd]. split; [reflexivity|].
        split; [|repeat split; assumption].
        right. right. eexists undefined, evs, _.
        split; [exact Hfails|]. split; [now left|]. split; [exact Hsw|reflexivity].
      * rewrite processBlock_catch_null by assumption.
        exists evs. cbn [fst snd]. split; [reflexivity|].
        split; [|repeat split; assumption].
        right. right. eexists null, evs, _.
        split; [exact Hfails|]. split; [now right|]. split; [exact Hsw|reflexivity].
      * rewrite processBlock_catch_fatal by assumption.
        rewrite addEvents_app. eexists. cbn [fst snd].
        split; [reflexivity|]. split; [right; now left|].
        unfold statusCalls, terminateCalls, fetchCalls, putCalls in *.
        rewrite !flat_map_app, H1, H2, H3, H4. repeat split.
Qed.

(** X17. What becomes of a failure.  When a task finds the promise of the
    fetch, of a hook or of the worker rejected with [e], it has so far logged
    no failure and has not asked the process to end.  If [e] is a
    task-flushed or a block-unavailable error the task returns, and that is
    all.  If it is neither, and is a value with properties, the task logs
    it, with a message that names the height and, when the value has a
    handler, the handler and the stack, and then asks the process to end,
    once and with status 1. *)
Theorem task_failure_policy :
  forall t st e evs,
    Fails env t st e evs ->
    exitCalls evs = [] /\
    errorsLogged evs = [] /\
    (swallowed env e = true -> processBlock env t st = (Ret tt, addEvents st evs)) /\
    (swallowed env e = false ->
     forall err,
       e = object err ->
       processBlock env t st
       = (Exited 1,
          addEvents st
            (evs ++
             [logger_error_call err
                ("failed to index block at height " ++ toString (height t) ++ " " ++
                 match handler err with
                 | None => ""
                 | Some handlerName =>
                     if String.eqb handlerName "" then ""
                     else handlerName ++ "(" ++
                          match stack err with
                          | Some text => text
                          | None => ""
                          end ++ ")"
                 end);
              process_exit_call 1]))).
Proof.
  intros t st e evs Hfails.
  destruct (Fails_quiet env t st e evs Hfails) as [Hexit Hlog].
  split; [exact Hexit|]. split; [exact Hlog|].
  unfold processBlock, tryCatch. rewrite (Fails_try_run env t st e evs Hfails).
  split.
  - intros Hsw. now apply processBlock_catch_swallowed.
  - intros Hsw err ->. rewrite processBlock_catch_fatal by assumption.
    rewrite addEvents_app. reflexivity.
Qed.

(** X2. A task that is not stale, and for which the fetch, both hooks and the
    worker succeed, returns after four calls in this order: the
    pre-processing hook with the fetched header, the line for the monitor,
    [processBlock] of its worker for its height, and the post-processing
    hook with the header and what the worker answered. *)
Theorem fresh_task_is_applied :
  forall t st header response,
    bufferedHeight t <= _latestBufferedHeight st ->
    fetchBlock_answer env (worker t) (height t) (history st) = Fulfilled header ->
    preProcessBlock_answer env header (history st ++ [preProcessBlock_call header])
    = Fulfilled tt ->
    processBlock_answer env (worker t) (height t)
      (history st ++ [preProcessBlock_call header;
                      monitorWrite_call (processingFrom t);
                      processBlock_call (worker t) (height t)])
    = Fulfilled response ->
    postProcessBlock_answer env header
      (mkResponse (dynamicDsCreated response) (reindexBlockHeader response))
      (history st ++ [preProcessBlock_call header;
                      monitorWrite_call (processingFrom t);
                      processBlock_call (worker t) (height t);
                      postProcessBlock_call header
                        (mkResponse (dynamicDsCreated response)
                                    (reindexBlockHeader response))])
    = Fulfilled tt ->
    processBlock env t st
    = (Ret tt,
       addEvents st
         [preProcessBlock_call header;
          monitorWrite_call (processingFrom t);
          processBlock_call (worker t) (height t);
          postProcessBlock_call header
            (mkResponse (dynamicDsCreated response) (reindexBlockHeader response))]).
Proof.
  intros t st header response Hfresh Hfetch Hpre Hproc Hpost.
  unfold processBlock, tryCatch.
  destruct (processBlock_try_cases env t st)
    as [e Hf|h Hf Hs|h e Hf _ Hp|h e Hf _ Hp Hw|h r settled Hf _ Hp Hw Hq].
  - congruence.
  - lia.
  - rewrite Hfetch in Hf. inversion Hf; subst h. congruence.
  - rewrite Hfetch in Hf. inversion Hf; subst h. congruence.
  - rewrite Hfetch in Hf. inversion Hf; subst h.
    rewrite Hproc in Hw. inversion Hw; subst r.
    rewrite Hpost in Hq. subst settled. reflexivity.
Qed.

(** X3. In every run of a task the hooks and the worker are called in one
    order and each at most once: there is no call to them, or, for the header
    that the fetch brought, the pre-processing hook alone, or that and then
    [processBlock] of the worker, or these two and then the post-processing
    hook. *)
Theorem processing_calls_in_order :
  forall t st,
  exists evs,
    snd (processBlock env t st) = addEvents st evs /\
    (processingCalls evs = [] \/
     exists header,
       fetchBlock_answer env (worker t) (height t) (history st) = Fulfilled header /\
       (processingCalls evs = [preProcessBlock_call header] \/
        processingCalls evs
        = [preProcessBlock_call header; processBlock_call (worker t) (height t)] \/
        exists response,
          processingCalls evs
          = [preProcessBlock_call header;
             processBlock_call (worker t) (height t);
             postProcessBlock_call header response])).
Proof.
  intros t st. unfold processBlock, tryCatch.
  assert (Hcatch : forall e evs0,
    exists evs,
      snd (processBlock_catch env t e (addEvents st evs0)) = addEvents st evs /\
      processingCalls evs = processingCalls evs0).
  { intros e evs0.
    destruct (processBlock_catch_cases env t e (addEvents st evs0))
      as [Hc|[[msg Hc]|(err & _ & Hc)]]; rewrite Hc.
    - now exists evs0.
    - now exists evs0.
    - rewrite addEvents_app. eexists. split; [reflexivity|].
      unfold processingCalls. rewrite filter_app. cbn. now rewrite app_nil_r. }
  destruct (processBlock_try_cases env t st)
    as [e Hf|h Hf Hs|h e Hf _ Hp|h e Hf _ Hp Hw|h r settled Hf _ Hp Hw Hq].
  - destruct (Hcatch e []) as (evs & Hsnd & Hcalls).
    rewrite addEvents_nil in Hsnd. exists evs. split; [exact Hsnd|now left].
  - eexists. split; [reflexivity|now left].
  - destruct (Hcatch e [preProcessBlock_call h]) as (evs & Hsnd & Hcalls).
    exists evs. split; [exact Hsnd|]. right. exists h. split; [exact Hf|].
    left. exact Hcalls.
  - destruct (Hcatch e [preProcessBlock_call h;
                        monitorWrite_call (processingFrom t);
                        processBlock_call (worker t) (height t)])
      as (evs & Hsnd & Hcalls).
    exists evs. split; [exact Hsnd|]. right. exists h. split; [exact Hf|].
    right. left. exact Hcalls.
  - destruct settled as [[]|e].
    + eexists. split; [reflexivity|]. right. exists h. split; [exact Hf|].
      right. right. eexists. reflexivity.
    + match goal with
      | |- context [addEvents st ?l] => destruct (Hcatch e l) as (evs & Hsnd & Hcalls)
      end.
      exists evs. split; [exact Hsnd|]. right. exists h. split; [exact Hf|].
      right. right. eexists. exact Hcalls.
Qed.

(** ** Enqueuing: what can go wrong *)

Lemma everyNumber_numbers (ns : list Z) :
  everyNumber (map (@Number IBlock) ns) = Some ns.
Proof. induction ns as [|n ns IH]; cbn; [reflexivity|]. now rewrite IH. Qed.

Lemma getNextWorkerIndex_never_exits st c st' :
  getNextWorkerIndex env st <> (Exited c, st').
Proof.
  rewrite getNextWorkerIndex_run. cbv zeta.
  destruct (settleAll _); [destruct (Array_get _ _)|]; discriminate.
Qed.

(** X4. [enqueueBlocks] assigns a whole batch or nothing: a call that does
    not return throws, and then no fetch was started, no task was put on the
    queue, and no field was written, the counter neither. *)
Theorem enqueueBlocks_all_or_nothing :
  forall (heights : list (Item IBlock)) latest st,
    fst (enqueueBlocks env heights latest st) = Ret tt \/
    exists e evs,
      enqueueBlocks env heights latest st = (Throw e, addEvents st evs) /\
      fetchCalls evs = [] /\ putCalls evs = [].
Proof.
  intros heights latest st. rewrite enqueueBlocks_run.
  destruct (everyNumber heights) as [ns|].
  2:{ right. eexists _, []. rewrite addEvents_nil. repeat split. }
  cbv zeta. set (batch := bypass ns latest).
  destruct (getNextWorkerIndex_calls env
              (addEvents st [logger_info_call (enqueueing batch)]))
    as (evs & Hsnd & _ & Hfetch & Hput).
  rewrite addEvents_app in Hsnd.
  destruct (getNextWorkerIndex env _) as [[idx|e|c] st2] eqn:Hlb;
    cbn [snd] in Hsnd; subst st2.
  - destruct (isShutdown st) eqn:Hs.
    + rewrite Array_map_enqueueBlock_shutdown by assumption. now left.
    + destruct batch as [|h hs]; [now left|].
      destruct (Array_get (workers st) idx) as [w|] eqn:Hw.
      * rewrite (Array_map_enqueueBlock_run env _ idx w) by assumption. now left.
      * rewrite Array_map_enqueueBlock_no_worker by assumption.
        right. eexists _, _. split; [reflexivity|].
        rewrite fetchCalls_app, putCalls_app, Hfetch, Hput. split; reflexivity.
  - right. eexists _, _. split; [reflexivity|].
    rewrite fetchCalls_app, putCalls_app, Hfetch, Hput. split; reflexivity.
  - exfalso. eapply getNextWorkerIndex_never_exits. exact Hlb.
Qed.

(** X5. With an empty pool, as before [init], [getNextWorkerIndex] has no
    status to choose from, and [enqueueBlocks] throws the type error for
    every batch of heights: it has drawn a number and done nothing else. *)
Theorem enqueueBlocks_needs_a_pool :
  forall (ns : list Z) latest st,
    workers st = [] ->
    enqueueBlocks env (map (@Number IBlock) ns) latest st
    = (Throw (TypeError "Cannot read properties of undefined (reading 'threadId')"),
       addEvents st [logger_info_call (enqueueing (bypass ns latest));
                     Math_random_call]).
Proof.
  intros ns latest st Hpool. rewrite enqueueBlocks_run, everyNumber_numbers.
  cbv zeta. rewrite getNextWorkerIndex_run. cbv zeta.
  cbn [workers addEvents]. rewrite Hpool. cbn [map settleAll app].
  change (lowestOf []) with (@nil WorkerStatusResponse).
  unfold Array_get at 1.
  destruct (_ <? 0); [|rewrite nth_error_nil]; now rewrite addEvents_app.
Qed.

Lemma settleAll_Rejected {A : Type} (results : list (Settled A)) (e0 : Thrown) :
  In (Rejected e0) results ->
  exists e, settleAll results = Rejected e /\ In (Rejected e) results.
Proof.
  induction results as [|[a|e] rest IH]; intros Hin.
  - destruct Hin.
  - destruct Hin as [Heq|Hin]; [discriminate|].
    destruct (IH Hin) as (e & He & Hine). exists e. cbn. rewrite He.
    split; [reflexivity|now right].
  - exists e. split; [reflexivity|now left].
Qed.

(** The reason of a [Promise.all] is the reason of one of its promises,
    whichever was rejected first. *)
Lemma rejected_reason {A : Type} (results : list (Settled A)) (earliest : Thrown)
    (first : nat) :
  In (Rejected earliest) results ->
  In (Rejected (nth first (rejections results) earliest)) results.
Proof.
  intros Hin.
  destruct (nth_in_or_default first (rejections results) earliest) as [Hnth|Heq];
    [|rewrite Heq; exact Hin].
  apply in_flat_map in Hnth.
  destruct Hnth as ([a|e] & Hres & Hreason); [destruct Hreason|].
  destruct Hreason as [<-|[]]. exact Hres.
Qed.

(** X6. When a worker of the pool does not answer for its status,
    [getNextWorkerIndex] throws the reason a worker gave for it.  By then
    every worker of the pool was asked, and no number is drawn. *)
Theorem status_failure_is_thrown :
  forall st w e0,
    In w (workers st) ->
    getStatus_answer env w (history st ++ map getStatus_call (workers st))
    = Rejected e0 ->
    exists e w',
      getNextWorkerIndex env st
      = (Throw e, addEvents st (map getStatus_call (workers st))) /\
      In w' (workers st) /\
      getStatus_answer env w' (history st ++ map getStatus_call (workers st))
      = Rejected e.
Proof.
  intros st w e0 Hin Hrej. rewrite getNextWorkerIndex_run. cbv zeta.
  destruct (settleAll_Rejected
              (map (fun w => getStatus_answer env w
                                (history st ++ map getStatus_call (workers st)))
                   (workers st)) e0) as (e & He & Hine).
  { apply in_map_iff. exists w. now split. }
  rewrite He.
  apply (rejected_reason _ e
           (rejectsFirst env (history st ++ map getStatus_call (workers st))))
    in Hine.
  apply in_map_iff in Hine. destruct Hine as (w' & Hw' & Hin').
  eexists _, w'. repeat split; assumption.
Qed.

Lemma filter_none {A : Type} (f : A -> bool) (l : list A) :
  (forall x, In x l -> f x = false) -> filter f l = [].
Proof.
  induction l as [|x l IH]; intros H; cbn; [reflexivity|].
  rewrite (H x (or_introl eq_refl)). apply IH. intros y Hy. apply H. now right.
Qed.

Lemma lowestOf_single (before after : list WorkerStatusResponse)
    (s : WorkerStatusResponse) :
  (forall s', In s' (before ++ after) -> toFetchBlocks s < toFetchBlocks s') ->
  lowestOf (before ++ s :: after) = [s].
Proof.
  intros Hless.
  destruct (Math_min_some (map toFetchBlocks (before ++ s :: after))) as [m Hm].
  { destruct before; discriminate. }
  destruct (Math_min_least _ _ Hm) as [Hin Hle].
  assert (Hs : m <= toFetchBlocks s).
  { apply Hle. apply in_map. apply in_or_app. right. now left. }
  assert (Hm' : m = toFetchBlocks s).
  { apply in_map_iff in Hin. destruct Hin as (s' & Hs' & Hin).
    apply in_app_or in Hin. destruct Hin as [Hin|[Heq|Hin]].
    - specialize (Hless s' (in_or_app _ _ _ (or_introl Hin))). lia.
    - now subst s'.
    - specialize (Hless s' (in_or_app _ _ _ (or_intror Hin))). lia. }
  unfold lowestOf. rewrite Hm, filter_app. cbn [filter].
  rewrite Hm', Z.eqb_refl.
  rewrite !filter_none; [reflexivity| |].
  - intros s' Hafter. apply Z.eqb_neq.
    specialize (Hless s' (in_or_app _ _ _ (or_intror Hafter))). lia.
  - intros s' Hbefore. apply Z.eqb_neq.
    specialize (Hless s' (in_or_app _ _ _ (or_introl Hbefore))). lia.
Qed.

(** X7. When one worker has a backlog below that of every other, the number
    drawn does not matter: [getNextWorkerIndex] returns the thread id of
    that worker, less one. *)
Theorem least_loaded_worker_needs_no_draw :
  forall st before after s,
    map (fun w => getStatus_answer env w
                    (history st ++ map getStatus_call (workers st)))
        (workers st)
    = map Fulfilled (before ++ s :: after) ->
    (forall s', In s' (before ++ after) -> toFetchBlocks s < toFetchBlocks s') ->
    getNextWorkerIndex env st
    = (Ret (threadId s - 1),
       addEvents st (map getStatus_call (workers st) ++ [Math_random_call])).
Proof.
  intros st before after s Hans Hless.
  rewrite getNextWorkerIndex_run. cbv zeta.
  rewrite Hans, settleAll_Fulfilled, (lowestOf_single before after s Hless).
  change (Array_length [s]) with 1.
  pose proof (draw_in_range
                (random_answer env
                   (history st ++ map getStatus_call (workers st)
                    ++ [Math_random_call])) 1 ltac:(lia)) as Hk.
  replace (Math.floor _) with 0 by lia. reflexivity.
Qed.

(** ** Enqueuing: when it goes well *)

Lemma getNextWorkerIndex_in_pool st (statuses : list WorkerStatusResponse) :
  workers st <> [] ->
  map (fun w => getStatus_answer env w
                  (history st ++ map getStatus_call (workers st)))
      (workers st)
  = map Fulfilled statuses ->
  (forall i s', nth_error statuses i = Some s' -> threadId s' = Z.of_nat i + 1) ->
  exists idx w,
    getNextWorkerIndex env st
    = (Ret idx,
       addEvents st (map getStatus_call (workers st) ++ [Math_random_call])) /\
    Array_get (workers st) idx = Some w.
Proof.
  intros Hpool Hans Hids.
  assert (Hst : statuses <> []).
  { intros ->. destruct (workers st); [now elim Hpool|discriminate]. }
  destruct (Math_min_some (map toFetchBlocks statuses)) as [m Hm].
  { destruct statuses; [now elim Hst|discriminate]. }
  rewrite getNextWorkerIndex_run. cbv zeta. rewrite Hans, settleAll_Fulfilled.
  set (r := random_answer env _).
  assert (Hn : 0 < Array_length (lowestOf statuses)).
  { unfold Array_length. pose proof (lowestOf_nonempty statuses Hst).
    destruct (lowestOf statuses); [congruence|cbn; lia]. }
  destruct (Array_get_in_range (lowestOf statuses) _ (draw_in_range r _ Hn))
    as [s Hs].
  rewrite Hs.
  assert (Hin : In s statuses).
  { apply Array_get_nth in Hs. destruct Hs as [_ Hs].
    apply nth_error_In in Hs. now apply (lowestOf_spec statuses m Hm) in Hs. }
  apply In_nth_error in Hin. destruct Hin as [i Hi].
  destruct (fulfilled_status_nth _ _ _ i s Hans Hi) as (w & Hw & _).
  exists (threadId s - 1), w. split; [reflexivity|].
  rewrite (Hids i s Hi). apply Array_get_nth. split; [lia|].
  replace (Z.to_nat (Z.of_nat i + 1 - 1)) with i by lia. exact Hw.
Qed.

(** X8. [enqueueBlocks] returns for every batch of heights when the pool is
    not empty, every worker answers for its status, and each worker runs in
    the thread of its pool index plus one: the index chosen is then one of
    the pool, and no assertion fails. *)
Theorem enqueueBlocks_returns :
  forall (ns : list Z) latest st (statuses : list WorkerStatusResponse),
    workers st <> [] ->
    map (fun w => getStatus_answer env w
                    ((history st ++ [logger_info_call (enqueueing (bypass ns latest))])
                     ++ map getStatus_call (workers st)))
        (workers st)
    = map Fulfilled statuses ->
    (forall i s', nth_error statuses i = Some s' -> threadId s' = Z.of_nat i + 1) ->
    exists st', enqueueBlocks env (map (@Number IBlock) ns) latest st = (Ret tt, st').
Proof.
  intros ns latest st statuses Hpool Hans Hids.
  rewrite enqueueBlocks_run, everyNumber_numbers. cbv zeta.
  destruct (getNextWorkerIndex_in_pool
              (addEvents st [logger_info_call (enqueueing (bypass ns latest))])
              statuses Hpool Hans Hids) as (idx & w & Hlb & Hw).
  rewrite Hlb. cbn [workers addEvents] in Hw.
  destruct (isShutdown st) eqn:Hs.
  - rewrite Array_map_enqueueBlock_shutdown by assumption.
    rewrite set_latestBufferedHeight_run. eexists. reflexivity.
  - rewrite (Array_map_enqueueBlock_run env _ idx w) by assumption.
    rewrite set_latestBufferedHeight_run. eexists. reflexivity.
Qed.

(** The status whose thread id is returned is that of a worker of the pool,
    and no worker answered with a smaller backlog. *)
Lemma getNextWorkerIndex_least_loaded st (statuses : list WorkerStatusResponse) :
  workers st <> [] ->
  map (fun w => getStatus_answer env w
                  (history st ++ map getStatus_call (workers st)))
      (workers st)
  = map Fulfilled statuses ->
  exists i w s,
    nth_error statuses i = Some s /\
    nth_error (workers st) i = Some w /\
    getStatus_answer env w (history st ++ map getStatus_call (workers st))
    = Fulfilled s /\
    (forall w' s',
        In w' (workers st) ->
        getStatus_answer env w' (history st ++ map getStatus_call (workers st))
        = Fulfilled s' ->
        toFetchBlocks s <= toFetchBlocks s') /\
    getNextWorkerIndex env st
    = (Ret (threadId s - 1),
       addEvents st (map getStatus_call (workers st) ++ [Math_random_call])).
Proof.
  intros Hpool Hans.
  assert (Hst : statuses <> []).
  { intros ->. destruct (workers st); [now elim Hpool|discriminate]. }
  destruct (Math_min_some (map toFetchBlocks statuses)) as [m Hm].
  { destruct statuses; [now elim Hst|discriminate]. }
  rewrite getNextWorkerIndex_run. cbv zeta. rewrite Hans, settleAll_Fulfilled.
  set (r := random_answer env _).
  assert (Hn : 0 < Array_length (lowestOf statuses)).
  { unfold Array_length. pose proof (lowestOf_nonempty statuses Hst).
    destruct (lowestOf statuses); [congruence|cbn; lia]. }
  destruct (Array_get_in_range (lowestOf statuses) _ (draw_in_range r _ Hn))
    as [s Hs].
  rewrite Hs.
  assert (Hlow : In s statuses /\ toFetchBlocks s = m).
  { apply Array_get_nth in Hs. destruct Hs as [_ Hs].
    apply nth_error_In in Hs. now apply (lowestOf_spec statuses m Hm) in Hs. }
  destruct Hlow as [Hin Hleast].
  apply In_nth_error in Hin. destruct Hin as [i Hi].
  destruct (fulfilled_status_nth _ _ _ i s Hans Hi) as (w & Hw & Hanswer).
  exists i, w, s. split; [exact Hi|]. split; [exact Hw|]. split; [exact Hanswer|].
  split; [|reflexivity].
  intros w' s' Hw' Hanswer'. rewrite Hleast.
  apply (Math_min_least _ _ Hm). apply in_map.
  assert (Hful : In (Fulfilled s') (map Fulfilled statuses)).
  { rewrite <- Hans, <- Hanswer'.
    apply (in_map (fun w0 => getStatus_answer env w0
                               (history st ++ map getStatus_call (workers st)))).
    exact Hw'. }
  apply in_map_iff in Hful. destruct Hful as (s0 & Heq & Hin0).
  now inversion Heq; subst.
Qed.

(** X18. With a pool that is not empty, workers that all answer for their
    status, and each worker in the thread of its pool index plus one,
    [getNextWorkerIndex] returns the pool index of a worker of the least
    backlog: it has asked every worker once and drawn one number, and no
    worker of the pool answered with a backlog below that of the worker at
    the index returned. *)
Theorem least_loaded_worker_is_chosen :
  forall st (statuses : list WorkerStatusResponse),
    workers st <> [] ->
    map (fun w => getStatus_answer env w
                    (history st ++ map getStatus_call (workers st)))
        (workers st)
    = map Fulfilled statuses ->
    (forall i s', nth_error statuses i = Some s' -> threadId s' = Z.of_nat i + 1) ->
    exists idx w s,
      getNextWorkerIndex env st
      = (Ret idx,
         addEvents st (map getStatus_call (workers st) ++ [Math_random_call])) /\
      Array_get (workers st) idx = Some w /\
      getStatus_answer env w (history st ++ map getStatus_call (workers st))
      = Fulfilled s /\
      forall w' s',
        In w' (workers st) ->
        getStatus_answer env w' (history st ++ map getStatus_call (workers st))
        = Fulfilled s' ->
        toFetchBlocks s <= toFetchBlocks s'.
Proof.
  intros st statuses Hpool Hans Hids.
  destruct (getNextWorkerIndex_least_loaded st statuses Hpool Hans)
    as (i & w & s & Hi & Hw & Hanswer & Hleast & Hrun).
  exists (threadId s - 1), w, s. split; [exact Hrun|]. split; [|split].
  - rewrite (Hids i s Hi). apply Array_get_nth. split; [lia|].
    replace (Z.to_nat (Z.of_nat i + 1 - 1)) with i by lia. exact Hw.
  - exact Hanswer.
  - exact Hleast.
Qed.

(** X19. With a pool that is not empty and workers that all answer for their
    status, whatever their thread ids, [getNextWorkerIndex] returns: its
    result is the thread id, less one, that a worker of the least backlog
    answered with. *)
Theorem thread_id_of_least_loaded_is_returned :
  forall st (statuses : list WorkerStatusResponse),
    workers st <> [] ->
    map (fun w => getStatus_answer env w
                    (history st ++ map getStatus_call (workers st)))
        (workers st)
    = map Fulfilled statuses ->
    exists w s,
      In w (workers st) /\
      getStatus_answer env w (history st ++ map getStatus_call (workers st))
      = Fulfilled s /\
      (forall w' s',
          In w' (workers st) ->
          getStatus_answer env w' (history st ++ map getStatus_call (workers st))
          = Fulfilled s' ->
          toFetchBlocks s <= toFetchBlocks s') /\
      getNextWorkerIndex env st
      = (Ret (threadId s - 1),
         addEvents st (map getStatus_call (workers st) ++ [Math_random_call])).
Proof.
  intros st statuses Hpool Hans.
  destruct (getNextWorkerIndex_least_loaded st statuses Hpool Hans)
    as (i & w & s & Hi & Hw & Hanswer & Hleast & Hrun).
  exists w, s. split; [now apply nth_error_In with i|].
  split; [exact Hanswer|]. split; [exact Hleast|exact Hrun].
Qed.


(** X10. A batch that brings the counter down is lost.  The tasks of a batch
    take the counter as it stands before the call as their fencing token; so
    when [enqueueBlocks] returns with a counter below that, every task it
    has put on the queue is stale from the start: run from there, it calls
    neither hook nor the worker. *)
Theorem lowering_batch_is_stale :
  forall (heights : list (Item IBlock)) latest st st',
    enqueueBlocks env heights latest st = (Ret tt, st') ->
    _latestBufferedHeight st' < _latestBufferedHeight st ->
    exists evs,
      history st' = history st ++ evs /\
      forall t,
        In t (putCalls evs) ->
        bufferedHeight t = _latestBufferedHeight st /\
        exists evs',
          snd (processBlock env t st') = addEvents st' evs' /\
          processingCalls evs' = [].
Proof.
  intros heights latest st st' Hrun Hlower.
  destruct (enqueueBlocks_Ret env heights latest st st' Hrun)
    as (ns & idx & evsA & Hns & _ & Hshut & Hempty & Hassign & Hst').
  eexists. split.
  { rewrite Hst'. cbn [history addEvents with_latestBufferedHeight].
    rewrite <- app_assoc. reflexivity. }
  intros t Hin. rewrite <- !app_assoc in Hin.
  repeat rewrite ?putCalls_app in Hin. rewrite putCalls_getStatus in Hin.
  cbn in Hin. rewrite app_nil_r in Hin.
  assert (Hfence : bufferedHeight t = _latestBufferedHeight st).
  { destruct (isShutdown st) eqn:Hs.
    - rewrite (Hshut eq_refl) in Hin. destruct Hin.
    - destruct (bypass ns latest) as [|h hs] eqn:Hb.
      + rewrite (Hempty eq_refl) in Hin. destruct Hin.
      + destruct (Hassign eq_refl ltac:(discriminate)) as (w & _ & HevsA).
        rewrite HevsA, putCalls_assignments in Hin.
        apply in_map_iff in Hin. destruct Hin as (h' & <- & _). reflexivity. }
  split; [exact Hfence|].
  destruct (stale_task_run env t st' ltac:(lia)) as (evs' & Hsnd & Hnone).
  exists evs'. split; [exact Hsnd|].
  unfold processingCalls. apply filter_none. intros ev Hev.
  rewrite forallb_forall in Hnone. specialize (Hnone ev Hev).
  now apply negb_true_iff in Hnone.
Qed.

(** ** The life of a dispatcher *)

Lemma step_keeps (st : State Header) (a : Action IBlock) :
  workers (step env st a) = workers st /\
  (exists evs, history (step env st a) = history st ++ evs) /\
  (isShutdown (step env st a) = true <->
   isShutdown st = true \/ a = OnApplicationShutdown).
Proof.
  destruct a as [heights latest|t|h|]; cbn [step].
  - destruct (steady_enqueueBlocks env heights latest st) as (Hw & Hs & Hh).
    split; [exact Hw|]. split; [exact Hh|]. rewrite Hs. split; [now left|].
    intros [H|H]; [exact H|discriminate].
  - destruct (steady_processBlock env t st) as (Hw & Hs & Hh).
    split; [exact Hw|]. split; [exact Hh|]. rewrite Hs. split; [now left|].
    intros [H|H]; [exact H|discriminate].
  - destruct (steady_set_latestBufferedHeight env h st) as (Hw & Hs & Hh).
    split; [exact Hw|]. split; [exact Hh|]. rewrite Hs. split; [now left|].
    intros [H|H]; [exact H|discriminate].
  - rewrite onApplicationShutdown_run. cbn [snd workers isShutdown history addEvents
      with_isShutdown].
    split; [reflexivity|]. split; [eexists; reflexivity|].
    split; [now right|reflexivity].
Qed.

(** X11. Whatever is done to a dispatcher, in whatever order, the pool stays
    as it is (a shutdown does not empty it), the history only grows, and the
    shutdown flag is set in the end exactly when it was set at the start or
    [onApplicationShutdown] was among the operations. *)
Theorem pool_is_fixed :
  forall st (actions : list (Action IBlock)),
    workers (run env st actions) = workers st /\
    (exists evs, history (run env st actions) = history st ++ evs) /\
    (isShutdown (run env st actions) = true <->
     isShutdown st = true \/ In OnApplicationShutdown actions).
Proof.
  intros st actions. revert st.
  induction actions as [|a actions IH]; intros st; cbn [run fold_left].
  - split; [reflexivity|]. split; [exists []; now rewrite app_nil_r|].
    split; [now left|]. intros [H|[]]. exact H.
  - fold (run env (step env st a) actions).
    destruct (IH (step env st a)) as (Hw & (evs2 & Hh) & Hs).
    destruct (step_keeps st a) as (Hw1 & (evs1 & Hh1) & Hs1).
    split; [congruence|]. split.
    + exists (evs1 ++ evs2). now rewrite Hh, Hh1, app_assoc.
    + rewrite Hs, Hs1. cbn [In]. split.
      * intros [[H|H]|H]; [now left|right; left; now symmetry|right; now right].
      * intros [H|[H|H]]; [left; now left|left; right; now symmetry|now right].
Qed.

Lemma run_cons st (a : Action IBlock) (actions : list (Action IBlock)) :
  run env st (a :: actions) = run env (step env st a) actions.
Proof. reflexivity. Qed.

Lemma terminateCalls_app evs1 evs2 :
  terminateCalls (evs1 ++ evs2) = terminateCalls evs1 ++ terminateCalls evs2.
Proof. apply flat_map_app. Qed.

Lemma abortCalls_app evs1 evs2 :
  abortCalls (evs1 ++ evs2) = (abortCalls evs1 + abortCalls evs2)%nat.
Proof. unfold abortCalls. now rewrite filter_app, length_app. Qed.

(** X12. [onApplicationShutdown] does not look at the shutdown flag: called
    [n] times it aborts the queue [n] times and tells every worker of the
    pool to terminate [n] times, round after round. *)
Theorem shutdown_is_repeated :
  forall (n : nat) st,
  exists evs,
    history (run env st (repeat (@OnApplicationShutdown IBlock) n))
    = history st ++ evs /\
    abortCalls evs = n /\
    terminateCalls evs = List.concat (repeat (workers st) n).
Proof.
  induction n as [|n IH]; intros st; cbn [repeat].
  - exists []. cbn. now rewrite app_nil_r.
  - rewrite run_cons.
    destruct (IH (step env st (@OnApplicationShutdown IBlock))) as (evs & Hh & Ha & Ht).
    cbn [step] in *. rewrite onApplicationShutdown_run in *.
    cbn [snd workers history addEvents with_isShutdown] in *.
    exists ((queue_abort_call :: map terminate_call (workers st)) ++ evs).
    split; [now rewrite Hh, app_assoc|].
    rewrite abortCalls_app, terminateCalls_app, Ha, Ht. split.
    + unfold abortCalls at 1. cbn [filter List.length].
      fold (abortCalls (map (@terminate_call Header) (workers st))).
      now rewrite abortCalls_terminate.
    + rewrite terminateCalls_abort, terminateCalls_map. reflexivity.
Qed.

(** ** Sampling the workers *)

Lemma infoLogged_app evs1 evs2 :
  infoLogged (evs1 ++ evs2) = infoLogged evs1 ++ infoLogged evs2.
Proof. apply flat_map_app. Qed.

(** One turn of the loop of [sampleWorkerStatus]. *)
Lemma sample_one_run (JSON_stringify : WorkerStatusResponse -> string)
    (w : Worker) st :
  bind (worker_getStatus env w)
       (fun polling =>
          bind (await polling)
               (fun status => call (logger_info_call (JSON_stringify status)))) st
  = match getStatus_answer env w (history st ++ [getStatus_call w]) with
    | Fulfilled s =>
        (Ret tt,
         addEvents st [getStatus_call w; logger_info_call (JSON_stringify s)])
    | Rejected e => (Throw e, addEvents st [getStatus_call w])
    end.
Proof.
  unfold bind, worker_getStatus, await. rewrite callAsync_run.
  cbn [history addEvents].
  destruct (getStatus_answer env w _); [|reflexivity].
  now rewrite call_run, addEvents_app.
Qed.

Lemma sampling_cons (JSON_stringify : WorkerStatusResponse -> string)
    (w : Worker) (rest : list Worker) st :
  for_of (w :: rest)
    (fun worker =>
       bind (worker_getStatus env worker)
            (fun polling =>
               bind (await polling)
                    (fun status =>
                       call (logger_info_call (JSON_stringify status))))) st
  = match getStatus_answer env w (history st ++ [getStatus_call w]) with
    | Fulfilled s =>
        for_of rest
          (fun worker =>
             bind (worker_getStatus env worker)
                  (fun polling =>
                     bind (await polling)
                          (fun status =>
                             call (logger_info_call (JSON_stringify status)))))
          (addEvents st [getStatus_call w; logger_info_call (JSON_stringify s)])
    | Rejected e => (Throw e, addEvents st [getStatus_call w])
    end.
Proof.
  cbn [for_of]. unfold bind at 1. rewrite sample_one_run.
  destruct (getStatus_answer env w _); reflexivity.
Qed.

Lemma sampling_run (JSON_stringify : WorkerStatusResponse -> string)
    (ws : list Worker) st :
  let result :=
    for_of ws
      (fun worker =>
         bind (worker_getStatus env worker)
              (fun polling =>
                 bind (await polling)
                      (fun status =>
                         call (logger_info_call (JSON_stringify status))))) st in
  exists (k : nat) evs,
    snd result = addEvents st evs /\
    (k <= List.length ws)%nat /\
    statusCalls evs = firstn k ws /\
    terminateCalls evs = [] /\ fetchCalls evs = [] /\ putCalls evs = [] /\
    ((fst result = Ret tt /\ k = List.length ws /\
      List.length (infoLogged evs) = k) \/
     (exists e w,
         fst result = Throw e /\
         (0 < k)%nat /\
         nth_error ws (k - 1) = Some w /\
         List.length (infoLogged evs) = (k - 1)%nat /\
         getStatus_answer env w (history st ++ evs) = Rejected e)).
Proof.
  cbv zeta. revert st. induction ws as [|w rest IH]; intros st.
  - exists 0%nat, []. rewrite addEvents_nil. cbn. repeat split; auto.
  - rewrite sampling_cons.
    destruct (getStatus_answer env w (history st ++ [getStatus_call w]))
      as [s|e] eqn:Hans.
    + destruct (IH (addEvents st [getStatus_call w;
                                  logger_info_call (JSON_stringify s)]))
        as (k & evs & Hsnd & Hk & Hstatus & Hterm & Hfetch & Hput & Hend).
      exists (S k), ([getStatus_call w; logger_info_call (JSON_stringify s)] ++ evs).
      rewrite Hsnd, addEvents_app. split; [reflexivity|].
      split; [cbn; lia|].
      rewrite statusCalls_app, terminateCalls_app, fetchCalls_app, putCalls_app,
        infoLogged_app, Hstatus, Hterm, Hfetch, Hput.
      split; [reflexivity|]. split; [reflexivity|]. split; [reflexivity|].
      split; [reflexivity|].
      destruct Hend as [(Hret & Hall & Hlog)|(e & w' & Hthrow & Hpos & Hnth & Hlog & Hrej)].
      * left. split; [exact Hret|]. split; [cbn; lia|]. cbn. now rewrite Hlog.
      * right. exists e, w'. split; [exact Hthrow|]. split; [lia|].
        split.
        { replace (S k - 1)%nat with (S (k - 1)) by lia. exact Hnth. }
        split; [cbn; rewrite Hlog; lia|].
        cbn [history addEvents] in Hrej. now rewrite <- app_assoc in Hrej.
    + exists 1%nat, [getStatus_call w]. cbn [fst snd]. split; [reflexivity|].
      split; [cbn; lia|]. split; [reflexivity|]. split; [reflexivity|].
      split; [reflexivity|]. split; [reflexivity|].
      right. exists e, w. repeat split; auto.
Qed.

(** X13. [sampleWorkerStatus] only looks: it writes no field, and its calls
    are status polls, of the first [k] workers of the pool in their order,
    and log lines; it does not look at the shutdown flag.  When it returns,
    it has polled every worker and logged a line for each.  When a worker
    does not answer, the sampling throws the reason that worker gave, and
    stops there: the workers behind it in the pool are not polled, and there
    is a line for each worker before it. *)
Theorem sampling_stops_at_first_failure :
  forall (JSON_stringify : WorkerStatusResponse -> string) st,
  exists (k : nat) evs,
    snd (sampleWorkerStatus env JSON_stringify st) = addEvents st evs /\
    (k <= List.length (workers st))%nat /\
    statusCalls evs = firstn k (workers st) /\
    terminateCalls evs = [] /\ fetchCalls evs = [] /\ putCalls evs = [] /\
    ((fst (sampleWorkerStatus env JSON_stringify st) = Ret tt /\
      k = List.length (workers st) /\
      List.length (infoLogged evs) = k) \/
     (exists e w,
         fst (sampleWorkerStatus env JSON_stringify st) = Throw e /\
         (0 < k)%nat /\
         nth_error (workers st) (k - 1) = Some w /\
         List.length (infoLogged evs) = (k - 1)%nat /\
         getStatus_answer env w (history st ++ evs) = Rejected e)).
Proof.
  intros JSON_stringify st. unfold sampleWorkerStatus.
  unfold bind at 1. unfold gets. cbv beta iota.
  exact (sampling_run JSON_stringify (workers st) st).
Qed.

(** X14. When every worker of the pool answers for its status, whenever it
    is asked, the sampling returns, and it has polled every worker of the
    pool, in the order of the pool, and logged as many lines. *)
Theorem sampling_completes :
  forall (JSON_stringify : WorkerStatusResponse -> string) st,
    (forall w hist, In w (workers st) ->
                    exists s, getStatus_answer env w hist = Fulfilled s) ->
    exists evs,
      sampleWorkerStatus env JSON_stringify st = (Ret tt, addEvents st evs) /\
      statusCalls evs = workers st /\
      List.length (infoLogged evs) = List.length (workers st).
Proof.
  intros JSON_stringify st Hanswers. unfold sampleWorkerStatus.
  unfold bind at 1. unfold gets. cbv beta iota.
  destruct (sampling_run JSON_stringify (workers st) st)
    as (k & evs & Hsnd & Hk & Hstatus & _ & _ & _ & Hend).
  cbv zeta in *.
  destruct Hend as [(Hret & Hall & Hlog)|(e & w & _ & Hpos & Hnth & _ & Hrej)].
  - exists evs. split.
    + destruct (for_of _ _ st) as [r s]. cbn [fst snd] in *. congruence.
    + subst k. rewrite firstn_all in Hstatus. now split.
  - apply nth_error_In in Hnth.
    destruct (Hanswers w (history st ++ evs) Hnth) as [s Hs]. congruence.
Qed.

(** ** Making the pool *)

Lemma Array_map_length {A B : Type} (callback : A -> M Header B) (array : list A)
    st (values : list B) st' :
  Array_map callback array st = (Ret values, st') ->
  List.length values = List.length array.
Proof.
  revert st values st'.
  induction array as [|x rest IH]; intros st values st'; cbn [Array_map].
  - unfold ret. now inversion 1.
  - unfold bind at 1. destruct (callback x st) as [[y|e|c] st1]; try discriminate.
    unfold bind at 1.
    destruct (Array_map callback rest st1) as [[ys|e|c] st2] eqn:Hrest;
      try discriminate.
    unfold ret. inversion 1; subst. cbn. f_equal. eapply IH. exact Hrest.
Qed.

Lemma settleAll_length {A : Type} (results : list (Settled A)) (values : list A) :
  settleAll results = Fulfilled values ->
  List.length values = List.length results.
Proof.
  revert values. induction results as [|[a|e] rest IH]; intros values; cbn.
  - now inversion 1.
  - destruct (settleAll rest) as [vs|e]; [|discriminate].
    inversion 1; subst. cbn. f_equal. now apply IH.
  - discriminate.
Qed.

Lemma init_run (Callback : Type)
    (createIndexerWorker : M Header (Promise Header Worker))
    (super_init : Callback -> M Header unit)
    (numWorkers : Z) (onDynamicDsCreated : Callback) st :
  init env createIndexerWorker super_init numWorkers onDynamicDsCreated st
  = if (numWorkers <? 0) || (4294967295 <? numWorkers)
    then (Throw (RangeError "Invalid array length"), st)
    else
      match Array_map (fun _ : Z => createIndexerWorker)
                      (repeat 0 (Z.to_nat numWorkers)) st with
      | (Ret created, st1) =>
          match settleAll (map (fun p => p (history st1)) created) with
          | Fulfilled ws => super_init onDynamicDsCreated (with_workers ws st1)
          | Rejected earliest =>
              (Throw (nth (rejectsFirst env (history st1))
                          (rejections (map (fun p => p (history st1)) created))
                          earliest),
               st1)
          end
      | (Throw e, st1) => (Throw e, st1)
      | (Exited c, st1) => (Exited c, st1)
      end.
Proof.
  unfold init, new_Array_fill_0. unfold bind at 1.
  destruct ((numWorkers <? 0) || (4294967295 <? numWorkers)); [reflexivity|].
  unfold ret at 1. cbv beta iota. unfold bind at 1.
  destruct (Array_map _ _ st) as [[created|e|c] st1]; try reflexivity.
  unfold bind at 1. unfold await, Promise_all.
  destruct (settleAll _); reflexivity.
Qed.

(** X15. [init] makes the whole pool or leaves it alone, for a function
    [createIndexerWorker] that does not write the pool itself.  Either every
    worker was made: then the pool holds the new handles, as many as
    [numWorkers], when the inherited [init] takes over.  Or [init] ends
    before that, not by returning, and the pool is what it was; the workers
    that were made by then are in no field of the dispatcher. *)
Theorem init_all_or_nothing :
  forall (Callback : Type) (createIndexerWorker : M Header (Promise Header Worker))
         (super_init : Callback -> M Header unit)
         (numWorkers : Z) (onDynamicDsCreated : Callback) st,
    steady createIndexerWorker ->
    (exists created st1 ws,
        Array_map (fun _ : Z => createIndexerWorker)
                  (repeat 0 (Z.to_nat numWorkers)) st = (Ret created, st1) /\
        settleAll (map (fun p => p (history st1)) created) = Fulfilled ws /\
        Z.of_nat (List.length ws) = numWorkers /\
        init env createIndexerWorker super_init numWorkers onDynamicDsCreated st
        = super_init onDynamicDsCreated (with_workers ws st1)) \/
    (workers (snd (init env createIndexerWorker super_init numWorkers
                        onDynamicDsCreated st)) = workers st /\
     fst (init env createIndexerWorker super_init numWorkers onDynamicDsCreated st)
     <> Ret tt).
Proof.
  intros Callback create super_init n cb st Hsteady.
  rewrite init_run.
  destruct ((n <? 0) || (4294967295 <? n)) eqn:Hrange.
  { right. cbn. split; [reflexivity|discriminate]. }
  apply orb_false_iff in Hrange. destruct Hrange as [Hlo _].
  apply Z.ltb_ge in Hlo.
  pose proof (steady_Array_map (fun _ : Z => create) (repeat 0 (Z.to_nat n))
                (fun _ => Hsteady) st) as (Hw & _ & _).
  destruct (Array_map (fun _ : Z => create) (repeat 0 (Z.to_nat n)) st)
    as [[created|e|c] st1] eqn:Hmade; cbn [snd] in Hw.
  2:{ right. cbn. split; [exact Hw|discriminate]. }
  2:{ right. cbn. split; [exact Hw|discriminate]. }
  destruct (settleAll (map (fun p => p (history st1)) created)) as [ws|e] eqn:Hall.
  2:{ right. cbn. split; [exact Hw|discriminate]. }
  left. exists created, st1, ws. split; [reflexivity|]. split; [exact Hall|].
  split; [|reflexivity].
  apply settleAll_length in Hall. rewrite length_map in Hall.
  apply Array_map_length in Hmade. rewrite repeat_length in Hmade.
  assert (Hlen : List.length ws = Z.to_nat n)
    by (etransitivity; [exact Hall|exact Hmade]).
  rewrite Hlen. now apply Z2Nat.id.
Qed.

(** ** The geometry of the queue *)

(** X16. [initAutoQueue] checks the number of workers and not the batch
    size: with a worker or more it makes a queue for every batch size, and
    the capacity of that queue is above 0 exactly when the batch size is. *)
Theorem batch_size_is_not_checked :
  forall (w batchSize : Z) (timeout : option Z) (name : option string),
    1 <= w ->
    exists q,
      initAutoQueue (Some w) batchSize timeout name = Ret q /\
      (0 < capacity q <-> 0 < batchSize).
Proof.
  intros w batchSize timeout name Hw. eexists. unfold initAutoQueue.
  replace (w =? 0) with false by (symmetry; apply Z.eqb_neq; lia).
  replace (w >? 0) with true by (symmetry; apply Z.gtb_gt; lia).
  cbn [negb andb capacity]. split; [reflexivity|]. cbn [capacity]. nia.
Qed.

End MoreProperties.

(** * More of the properties at work *)

(** Block 120 on four workers, the counter at 100 as when it was assigned. *)
Lemma fresh_task_is_applied_witness :
  bufferedHeight block120 <= _latestBufferedHeight fourWorkers /\
  processBlock quietEnv block120 fourWorkers
  = (Ret tt,
     addEvents fourWorkers
       [preProcessBlock_call 120;
        monitorWrite_call (processingFrom block120);
        processBlock_call 1%nat 120;
        postProcessBlock_call 120 (mkResponse false None)]).
Proof.
  split; [discriminate|].
  apply (fresh_task_is_applied quietEnv block120 fourWorkers 120 (mkResponse false None));
    [discriminate|reflexivity|reflexivity|reflexivity|reflexivity].
Defined.

(** Two heights for a dispatcher without workers. *)
Lemma enqueueBlocks_needs_a_pool_witness :
  workers noWorkers = [] /\
  enqueueBlocks quietEnv twoHeights None noWorkers
  = (Throw (TypeError "Cannot read properties of undefined (reading 'threadId')"),
     addEvents noWorkers
       [logger_info_call (enqueueing (bypass [5; 6] None)); Math_random_call]).
Proof.
  split; [reflexivity|].
  exact (enqueueBlocks_needs_a_pool (IBlock := unit) quietEnv [5; 6] None noWorkers
           eq_refl).
Defined.

(** Four workers, the third of which does not answer. *)
Lemma status_failure_is_thrown_witness :
  In 2%nat (workers fourWorkers) /\
  exists e w',
    getNextWorkerIndex silentThirdEnv fourWorkers
    = (Throw e, addEvents fourWorkers (map getStatus_call (workers fourWorkers))) /\
    In w' (workers fourWorkers) /\
    getStatus_answer silentThirdEnv w'
      (history fourWorkers ++ map getStatus_call (workers fourWorkers))
    = Rejected e.
Proof.
  assert (Hin : In 2%nat (workers fourWorkers)) by (cbn; auto).
  split; [exact Hin|].
  exact (status_failure_is_thrown silentThirdEnv fourWorkers 2%nat handlerFailure
           Hin eq_refl).
Defined.

(** Two workers with backlogs 5 and 0. *)
Lemma least_loaded_worker_needs_no_draw_witness :
  (forall s', In s' ([mkStatus 2 5] ++ []) ->
              toFetchBlocks (mkStatus 1 0) < toFetchBlocks s') /\
  getNextWorkerIndex swappedEnv twoWorkers
  = (Ret (threadId (mkStatus 1 0) - 1),
     addEvents twoWorkers
       (map getStatus_call (workers twoWorkers) ++ [Math_random_call])).
Proof.
  assert (Hless : forall s', In s' ([mkStatus 2 5] ++ []) ->
                             toFetchBlocks (mkStatus 1 0) < toFetchBlocks s').
  { intros s' [<-|[]]. reflexivity. }
  split; [exact Hless|].
  exact (least_loaded_worker_needs_no_draw swappedEnv twoWorkers
           [mkStatus 2 5] [] (mkStatus 1 0) eq_refl Hless).
Defined.

(** Two heights for the four workers. *)
Lemma enqueueBlocks_returns_witness :
  workers fourWorkers <> [] /\
  (forall i s', nth_error fourStatuses i = Some s' -> threadId s' = Z.of_nat i + 1) /\
  exists st', enqueueBlocks quietEnv twoHeights None fourWorkers = (Ret tt, st').
Proof.
  assert (Hpool : workers fourWorkers <> []) by discriminate.
  assert (Hids : forall i s', nth_error fourStatuses i = Some s' ->
                              threadId s' = Z.of_nat i + 1).
  { intros [|[|[|[|[|i]]]]] s' H; cbn in H; inversion H; reflexivity. }
  split; [exact Hpool|]. split; [exact Hids|].
  exact (enqueueBlocks_returns (IBlock := unit) quietEnv [5; 6] None fourWorkers
           fourStatuses Hpool eq_refl Hids).
Defined.


(** Blocks 5 and 6 for the four workers, whose counter is at 100. *)
Lemma lowering_batch_is_stale_witness :
  _latestBufferedHeight (snd (enqueueBlocks quietEnv twoHeights None fourWorkers))
  < _latestBufferedHeight fourWorkers /\
  exists evs,
    history (snd (enqueueBlocks quietEnv twoHeights None fourWorkers))
    = history fourWorkers ++ evs /\
    forall t,
      In t (putCalls evs) ->
      bufferedHeight t = _latestBufferedHeight fourWorkers /\
      exists evs',
        snd (processBlock quietEnv t
               (snd (enqueueBlocks quietEnv twoHeights None fourWorkers)))
        = addEvents (snd (enqueueBlocks quietEnv twoHeights None fourWorkers)) evs' /\
        processingCalls evs' = [].
Proof.
  split; [reflexivity|].
  apply (lowering_batch_is_stale quietEnv twoHeights None fourWorkers);
    reflexivity.
Defined.

(** The four workers, all answering. *)
Lemma sampling_completes_witness :
  (forall w hist, In w (workers fourWorkers) ->
                  exists s, getStatus_answer quietEnv w hist = Fulfilled s) /\
  exists evs,
    sampleWorkerStatus quietEnv exampleStringify fourWorkers
    = (Ret tt, addEvents fourWorkers evs) /\
    statusCalls evs = workers fourWorkers /\
    List.length (infoLogged evs) = List.length (workers fourWorkers).
Proof.
  assert (Hanswers : forall w hist, In w (workers fourWorkers) ->
                                    exists s, getStatus_answer quietEnv w hist
                                              = Fulfilled s).
  { intros w hist _. eexists. reflexivity. }
  split; [exact Hanswers|].
  exact (sampling_completes quietEnv exampleStringify fourWorkers Hanswers).
Defined.

(** Three workers to make, with a function that makes them. *)
Lemma init_all_or_nothing_witness :
  steady exampleCreate /\
  ((exists created st1 ws,
       Array_map (fun _ : Z => exampleCreate) (repeat 0 (Z.to_nat 3)) noWorkers
       = (Ret created, st1) /\
       settleAll (map (fun p => p (history st1)) created) = Fulfilled ws /\
       Z.of_nat (List.length ws) = 3 /\
       init quietEnv exampleCreate exampleSuperInit 3 tt noWorkers
       = exampleSuperInit tt (with_workers ws st1)) \/
   (workers (snd (init quietEnv exampleCreate exampleSuperInit 3 tt noWorkers))
    = workers noWorkers /\
    fst (init quietEnv exampleCreate exampleSuperInit 3 tt noWorkers) <> Ret tt)).
Proof.
  assert (Hsteady : steady exampleCreate).
  { intros st. split; [reflexivity|]. split; [reflexivity|].
    exists [logger_info_call "worker created"]. reflexivity. }
  split; [exact Hsteady|].
  exact (init_all_or_nothing quietEnv unit exampleCreate exampleSuperInit 3 tt noWorkers
           Hsteady).
Defined.

(** Four workers, with batches of ten and with batches of none. *)
Lemma batch_size_is_not_checked_witness :
  1 <= 4 /\
  (exists q,
      initAutoQueue (Some 4) 10 (Some 900) (Some "Worker") = Ret q /\
      (0 < capacity q <-> 0 < 10)) /\
  (exists q,
      initAutoQueue (Some 4) 0 (Some 900) (Some "Worker") = Ret q /\
      (0 < capacity q <-> 0 < 0)).
Proof.
  assert (H : 1 <= 4) by discriminate.
  split; [exact H|]. split.
  - exact (batch_size_is_not_checked 4 10 (Some 900) (Some "Worker") H).
  - exact (batch_size_is_not_checked 4 0 (Some 900) (Some "Worker") H).
Defined.

(** The pool made by [init] in the example, and the pool after a failed
    [init]. *)
Example init_makes_three_workers :
  workers (snd (init quietEnv exampleCreate exampleSuperInit 3 tt noWorkers))
  = [0%nat; 1%nat; 2%nat].
Proof. reflexivity. Qed.

Example init_fails_with_no_worker :
  init quietEnv exampleCreateOnce exampleSuperInit 3 tt noWorkers
  = (Throw handlerFailure,
     addEvents noWorkers
       [logger_info_call "worker created"; logger_info_call "worker created";
        logger_info_call "worker created"]).
Proof. reflexivity. Qed.

(** The sampling of four workers the third of which does not answer. *)
Example sampling_with_a_silent_worker :
  sampleWorkerStatus silentThirdEnv exampleStringify fourWorkers
  = (Throw handlerFailure,
     addEvents fourWorkers
       [getStatus_call 0%nat; logger_info_call "1:3";
        getStatus_call 1%nat; logger_info_call "2:1";
        getStatus_call 2%nat]).
Proof. reflexivity. Qed.

(** The worker fails on block 120: with the failure of a handler the process
    is asked to end, with an unavailable block the task just returns. *)
Lemma task_failure_policy_witness :
  (Fails failingEnv block120 fourWorkers handlerFailure
     [preProcessBlock_call 120;
      monitorWrite_call "Processing from worker #1";
      processBlock_call 1%nat 120] /\
   swallowed failingEnv handlerFailure = false /\
   processBlock failingEnv block120 fourWorkers
   = (Exited 1,
      addEvents fourWorkers
        [preProcessBlock_call 120;
         monitorWrite_call "Processing from worker #1";
         processBlock_call 1%nat 120;
         logger_error_call handlerError
           "failed to index block at height 120 handleEvent(at mapping)";
         process_exit_call 1])) /\
  (Fails unavailableEnv block120 fourWorkers blockUnavailable
     [preProcessBlock_call 120;
      monitorWrite_call "Processing from worker #1";
      processBlock_call 1%nat 120] /\
   swallowed unavailableEnv blockUnavailable = true /\
   processBlock unavailableEnv block120 fourWorkers
   = (Ret tt,
      addEvents fourWorkers
        [preProcessBlock_call 120;
         monitorWrite_call "Processing from worker #1";
         processBlock_call 1%nat 120])).
Proof.
  assert (Hfailing : Fails failingEnv block120 fourWorkers handlerFailure
                       [preProcessBlock_call 120;
                        monitorWrite_call "Processing from worker #1";
                        processBlock_call 1%nat 120]).
  { apply (WorkerFails Z failingEnv block120 fourWorkers 120 handlerFailure);
      reflexivity. }
  assert (Hunavailable : Fails unavailableEnv block120 fourWorkers blockUnavailable
                           [preProcessBlock_call 120;
                            monitorWrite_call "Processing from worker #1";
                            processBlock_call 1%nat 120]).
  { apply (WorkerFails Z unavailableEnv block120 fourWorkers 120 blockUnavailable);
      reflexivity. }
  split; (split; [assumption|]); (split; [reflexivity|]).
  - destruct (task_failure_policy failingEnv block120 fourWorkers handlerFailure _
                Hfailing) as (_ & _ & _ & Hfatal).
    exact (Hfatal eq_refl handlerError eq_refl).
  - destruct (task_failure_policy unavailableEnv block120 fourWorkers blockUnavailable _
                Hunavailable) as (_ & _ & Hswallowed & _).
    exact (Hswallowed eq_refl).
Defined.

(** Four workers with the backlogs 3, 1, 1, 4, each in the thread of its pool
    index plus one. *)
Lemma least_loaded_worker_is_chosen_witness :
  workers fourWorkers <> [] /\
  (forall i s', nth_error fourStatuses i = Some s' -> threadId s' = Z.of_nat i + 1) /\
  exists idx w s,
    getNextWorkerIndex quietEnv fourWorkers
    = (Ret idx,
       addEvents fourWorkers
         (map getStatus_call (workers fourWorkers) ++ [Math_random_call])) /\
    Array_get (workers fourWorkers) idx = Some w /\
    getStatus_answer quietEnv w
      (history fourWorkers ++ map getStatus_call (workers fourWorkers))
    = Fulfilled s /\
    forall w' s',
      In w' (workers fourWorkers) ->
      getStatus_answer quietEnv w'
        (history fourWorkers ++ map getStatus_call (workers fourWorkers))
      = Fulfilled s' ->
      toFetchBlocks s <= toFetchBlocks s'.
Proof.
  assert (Hpool : workers fourWorkers <> []) by discriminate.
  assert (Hids : forall i s', nth_error fourStatuses i = Some s' ->
                              threadId s' = Z.of_nat i + 1).
  { intros [|[|[|[|[|i]]]]] s' H; cbn in H; inversion H; reflexivity. }
  split; [exact Hpool|]. split; [exact Hids|].
  exact (least_loaded_worker_is_chosen quietEnv fourWorkers fourStatuses
           Hpool eq_refl Hids).
Defined.

(** A rejection with [null] that the worker gives for block 120. *)
Example null_failure_is_thrown :
  fst (processBlock (exampleEnv fourStatuses (Rejected null) drawZero)
         block120 fourWorkers)
  = Throw (TypeError "Cannot read properties of null (reading 'handler')").
Proof. reflexivity. Qed.

(** The draw 0.5714285714285715 among seven: seven times the draw is 4 less
    2 ^ -52, and the double next to that is 4. *)
Example draw_of_four_sevenths :
  significand drawFourSevenths * 7 / 2 ^ binaryScale drawFourSevenths = 3 /\
  Math.floor (times drawFourSevenths 7) = 4 /\
  binary64_floor (binary64_times drawFourSevenths 7) = Some 4.
Proof. repeat split. Qed.

(** With the greatest draw the last of seven is taken, and not one more. *)
Example draw_of_the_last : Math.floor (times drawLast 7) = 6.
Proof. reflexivity. Qed.

(** The two workers whose thread ids are not in the order of the pool: the
    thread id 1 of the idle worker, less one, is returned. *)
Lemma thread_id_of_least_loaded_is_returned_witness :
  workers twoWorkers <> [] /\
  exists w s,
    In w (workers twoWorkers) /\
    getStatus_answer swappedEnv w
      (history twoWorkers ++ map getStatus_call (workers twoWorkers))
    = Fulfilled s /\
    (forall w' s',
        In w' (workers twoWorkers) ->
        getStatus_answer swappedEnv w'
          (history twoWorkers ++ map getStatus_call (workers twoWorkers))
        = Fulfilled s' ->
        toFetchBlocks s <= toFetchBlocks s') /\
    getNextWorkerIndex swappedEnv twoWorkers
    = (Ret (threadId s - 1),
       addEvents twoWorkers
         (map getStatus_call (workers twoWorkers) ++ [Math_random_call])).
Proof.
  assert (Hpool : workers twoWorkers <> []) by discriminate.
  split; [exact Hpool|].
  exact (thread_id_of_least_loaded_is_returned swappedEnv twoWorkers swappedStatuses
           Hpool eq_refl).
Defined.
